(** * Gudgeon: rule store, consumer classification and DNS source

    A shallow embedding of the filtering pipeline of the Gudgeon DNS proxy:
    the bloom-filter rule store ([rule] package), the engine's consumer
    classification and request handler ([engine] package) and the DNS
    source with its worker pressure controller and source factory
    ([resolver] package).

    Go strings are byte strings ([string]); [net.IP] is a byte slice;
    Go maps are [gmap]s; a [nil] pointer or interface is [None].  What the
    Go standard library and third-party packages provide (bloom filters,
    [net.ParseIP], the file system, the query cache) enters through type
    classes, so every statement holds for all their implementations. *)

From Stdlib Require Import ZArith NArith List Bool Ascii String Lia DecimalString.
From Stdlib Require Import DecimalPos DecimalN.
From stdpp Require Import base option list strings gmap.

Import ListNotations.
Local Open Scope string_scope.

(* ===================================================================== *)
(** * Part I: definitions                                                 *)
(* ===================================================================== *)

(** A Go call either returns or panics (nil dereference, index out of
    range). *)
Inductive result (A : Type) : Type :=
| Ret (a : A)
| Panic.
Arguments Ret {A} a.
Arguments Panic {A}.

(* --------------------------------------------------------------------- *)
(** ** Package [strings], [strconv], [bytes] and [util]                   *)
(* --------------------------------------------------------------------- *)

Module Util.

(** [strings.HasPrefix]. *)
Fixpoint HasPrefix (s p : string) : bool :=
  match p, s with
  | EmptyString, _ => true
  | String a p', String b s' => if Ascii.eqb a b then HasPrefix s' p' else false
  | String _ _, EmptyString => false
  end.

(** [strings.HasSuffix]. *)
Definition HasSuffix (s suffix : string) : bool :=
  (String.length suffix <=? String.length s)%nat &&
  String.eqb (substring (String.length s - String.length suffix)
                        (String.length suffix) s) suffix.

(** [s[:len(s)-1]]. *)
Definition dropLast (s : string) : string := substring 0 (String.length s - 1) s.

(** [strings.Contains]. *)
Fixpoint Contains (s sub : string) : bool :=
  HasPrefix s sub ||
  match s with
  | EmptyString => false
  | String _ s' => Contains s' sub
  end.

(** Whether a byte occurs in a string. *)
Fixpoint hasByte (c : ascii) (s : string) : bool :=
  match s with
  | EmptyString => false
  | String a s' => Ascii.eqb a c || hasByte c s'
  end.

(** [strings.Split] for a one-byte separator, the only kind the source
    passes (":", "/", " ").  An empty input yields one empty piece. *)
Fixpoint Split (s : string) (sep : ascii) : list string :=
  match s with
  | EmptyString => [EmptyString]
  | String c s' =>
      if Ascii.eqb c sep then EmptyString :: Split s' sep
      else match Split s' sep with
           | h :: t => String c h :: t
           | [] => [String c EmptyString]
           end
  end.

(** [strings.Join]. *)
Fixpoint Join (l : list string) (sep : string) : string :=
  match l with
  | [] => EmptyString
  | [x] => x
  | x :: rest => x ++ sep ++ Join rest sep
  end.

Definition isUpper (c : ascii) : bool :=
  (65 <=? nat_of_ascii c)%nat && (nat_of_ascii c <=? 90)%nat.

Definition lowerByte (c : ascii) : ascii :=
  if isUpper c then ascii_of_nat (nat_of_ascii c + 32) else c.

(** [strings.ToLower] on ASCII; bytes from 0x80 on are left alone (no
    rune outside ASCII lower-cases to a letter of "udp", "tcp" or
    "tcp-tls"). *)
Fixpoint ToLower (s : string) : string :=
  match s with
  | EmptyString => EmptyString
  | String c s' => String (lowerByte c) (ToLower s')
  end.

(** A string of ASCII bytes: no byte from 0x80 on, so every byte is a
    rune of its own. *)
Definition isASCII (s : string) : bool :=
  forallb (fun c => (nat_of_ascii c <? 128)%nat) (list_ascii_of_string s).

(** [strings.EqualFold] on ASCII strings: two bytes fold together when
    they are equal or one is the upper-case form of the other.  Bytes
    from 0x80 on are compared as they are, which is the answer of
    [strings.EqualFold] for ASCII strings only: statements that rest on
    a negative answer ask for ASCII strings. *)
Fixpoint EqualFold (s t : string) : bool :=
  match s, t with
  | EmptyString, EmptyString => true
  | String a s', String b t' =>
      Ascii.eqb (lowerByte a) (lowerByte b) && EqualFold s' t'
  | _, _ => false
  end.

Definition isSpace (c : ascii) : bool :=
  let n := nat_of_ascii c in
  ((9 <=? n)%nat && (n <=? 13)%nat) || (n =? 32)%nat.

Fixpoint trimLeft (s : string) : string :=
  match s with
  | EmptyString => EmptyString
  | String c s' => if isSpace c then trimLeft s' else s
  end.

(** Drops trailing white space: a space is kept only when something that
    is kept follows it. *)
Fixpoint trimRight (s : string) : string :=
  match s with
  | EmptyString => EmptyString
  | String c s' =>
      match trimRight s' with
      | EmptyString => if isSpace c then EmptyString else String c EmptyString
      | r => String c r
      end
  end.

(** [strings.TrimSpace] on ASCII strings: the white space is tab, line
    feed, vertical tab, form feed, carriage return and space.  The white
    space of Unicode beyond ASCII (U+0085, U+00A0 and others) is not
    trimmed: statements that rest on what is trimmed ask for ASCII
    strings. *)
Definition TrimSpace (s : string) : string := trimRight (trimLeft s).

Definition isDigit (c : ascii) : bool :=
  (48 <=? nat_of_ascii c)%nat && (nat_of_ascii c <=? 57)%nat.

Fixpoint parseDigits (s : string) (acc : N) : option N :=
  match s with
  | EmptyString => Some acc
  | String c s' =>
      if isDigit c
      then parseDigits s' (10 * acc + N.of_nat (nat_of_ascii c - 48))%N
      else None
  end.

(** [strconv.ParseUint(s, 10, bitSize)]: [None] stands for a non-nil
    error (empty input, a byte that is not a digit, or a value that needs
    more than [bitSize] bits). *)
Definition ParseUint (s : string) (bitSize : N) : option N :=
  match s with
  | EmptyString => None
  | _ => match parseDigits s 0%N with
         | Some v => if (v <? 2 ^ bitSize)%N then Some v else None
         | None => None
         end
  end.

(** [%d] of [fmt.Sprintf] on an unsigned value. *)
Definition formatUint (n : N) : string := NilEmpty.string_of_uint (N.to_uint n).

(** Modelled from the spec: [util.StringIn] is not under src/; it is the
    membership test its name and its callers say. *)
Fixpoint StringIn (value : string) (l : list string) : bool :=
  match l with
  | [] => false
  | test :: rest => if String.eqb value test then true else StringIn value rest
  end.

(** Modelled from the spec: [util.DomainList] is not under src/.  The fan-out
    of [d] is [d] plus every proper suffix obtained by trimming leftmost
    labels, down to two labels (a.b.c gives a.b.c and b.c); the empty
    domain has no candidate. *)
Fixpoint suffixes (labels : list string) : list string :=
  match labels with
  | [] | [_] => []
  | _ :: (_ :: _ :: _) as rest => Join rest "." :: suffixes rest
  | _ :: _ => []
  end.

Definition DomainList_spec (domain : string) : list string :=
  match domain with
  | EmptyString => []
  | _ => domain :: suffixes (Split domain ".")
  end.

(** [bytes.Compare]: lexicographic order on byte slices. *)
Fixpoint Compare (a b : list Byte.byte) : comparison :=
  match a, b with
  | [], [] => Eq
  | [], _ :: _ => Lt
  | _ :: _, [] => Gt
  | x :: a', y :: b' =>
      match N.compare (Byte.to_N x) (Byte.to_N y) with
      | Eq => Compare a' b'
      | c => c
      end
  end.

End Util.

(* --------------------------------------------------------------------- *)
(** ** Package [rule]: the bloom-filter rule store                        *)
(* --------------------------------------------------------------------- *)

Module Rule.
Import Util.

(** The outcome of a lookup. *)
Inductive Match : Type := MatchAllow | MatchBlock | MatchNone.

(** The kind of a list, as [ParseType] reports it. *)
Inductive RuleType : Type := ALLOW | BLOCK.

(** [config.GudgeonList], with the fields the source reads. *)
Record GudgeonList : Type := {
  Name : string;
  Type_ : string;
  Src : string;
  Tags : list string
}.

(** A rule is consulted through [Text()] only; [None] is a nil rule. *)
Definition Rule : Type := option string.

(** What a [bufio.Scanner] gets out of an opened file: the lines it
    scanned and whether it stopped on a read error ([scanner.Err()]). *)
Record File : Type := {
  lines : list string;
  scanErr : bool
}.

(** The collaborators of the store: the bloom filter library, the parts of
    the [config] and [rule] packages that are not under src/, the domain
    fan-out of [util], and the file system ([os.Open], [None] when the file
    cannot be opened). *)
Class Deps : Type := {
  BloomFilter : Type;
  NewWithEstimates : N -> BloomFilter;
  TestString : BloomFilter -> string -> bool;
  AddString : BloomFilter -> string -> BloomFilter;
  GudgeonConfig : Type;
  PathToList : GudgeonConfig -> GudgeonList -> string;
  CanonicalName : GudgeonList -> string;
  ParseType : string -> RuleType;
  comment : string;
  altComment : string;
  DomainList : string -> list string;
  Open : string -> option File
}.

Section Store.
Context `{D : Deps}.

(** [bloomStore]; a nil map reads like an empty one and [Load] makes every
    map before it writes, so nil maps are empty maps here.  The backing
    store map is made by [Load] and never read. *)
Record bloomStore : Type := {
  conf : option GudgeonConfig;
  groupAllowMap : gmap string (list GudgeonList);
  groupBlockMap : gmap string (list GudgeonList);
  bloomFilters : gmap string BloomFilter
}.

(** The zero value of the struct. *)
Definition emptyStore : bloomStore :=
  {| conf := None; groupAllowMap := ∅; groupBlockMap := ∅; bloomFilters := ∅ |}.

Definition isAllow (t : RuleType) : bool :=
  match t with ALLOW => true | BLOCK => false end.

(** The search for the list among those of the group, by canonical name. *)
Fixpoint inMap (groupListMap : list GudgeonList) (lst : GudgeonList) : bool :=
  match groupListMap with
  | [] => false
  | mapList :: rest =>
      if String.eqb (CanonicalName mapList) (CanonicalName lst) then true
      else inMap rest lst
  end.

(** The loop that loads the rules into the filter; the counter is a
    [uint64]. *)
Fixpoint loadRules (filter : BloomFilter) (rules : list Rule) (counter : N)
  : BloomFilter * N :=
  match rules with
  | [] => (filter, counter)
  | None :: rest => loadRules filter rest counter
  | Some text :: rest =>
      if negb (TestString filter text)
      then loadRules (AddString filter text) rest ((counter + 1) mod 2 ^ 64)%N
      else loadRules filter rest counter
  end.

(** [bloomStore.Load]. *)
Definition Load (store : bloomStore) (group : string) (rules : list Rule)
    (cfg : option GudgeonConfig) (lst : GudgeonList) : bloomStore * N :=
  let conf' := match conf store with None => cfg | Some c => Some c end in
  let allow := isAllow (ParseType (Type_ lst)) in
  let currentMap := if allow then groupAllowMap store else groupBlockMap store in
  let groupListMap := default [] (currentMap !! group) in
  let groupListMap' :=
    if inMap groupListMap lst then groupListMap else (groupListMap ++ [lst])%list in
  let currentMap' := <[group := groupListMap']> currentMap in
  let filter :=
    match bloomFilters store !! CanonicalName lst with
    | Some f => f
    | None => NewWithEstimates (N.of_nat (length rules))
    end in
  let '(filter', counter) := loadRules filter rules 0%N in
  ({| conf := conf';
      groupAllowMap := if allow then currentMap' else groupAllowMap store;
      groupBlockMap := if allow then groupBlockMap store else currentMap';
      bloomFilters := <[CanonicalName lst := filter']> (bloomFilters store) |},
   counter).

(** The rewriting of a line of the file before the comparison: with a
    space in it, everything up to the first space goes and the rest is
    joined and trimmed. *)
Definition dropLeading (line : string) : string :=
  let split := Split line " " in
  if (1 <? length split)%nat then TrimSpace (Join (tail split) "") else line.

(** The scanner loop of [isInListFile]. *)
Fixpoint scanLines (text : string) (ls : list string) : bool :=
  match ls with
  | [] => false
  | line :: rest =>
      if HasPrefix line comment || HasPrefix line altComment
      then scanLines text rest
      else if EqualFold text (dropLeading line) then true
      else scanLines text rest
  end.

(** [isInListFile]. *)
Definition isInListFile (text : string) (cfg : GudgeonConfig) (lst : GudgeonList)
  : bool :=
  let path := PathToList cfg lst in
  if String.eqb "" path then true
  else match Open path with
       | None => true
       | Some f =>
           if scanLines text (lines f) then true
           else if scanErr f then false
           else false
       end.

(** The condition of both inner loops of [IsMatchAny] on one candidate. *)
Definition candidateHits (store : bloomStore) (filter : BloomFilter)
    (lst : GudgeonList) (c : string) : bool :=
  TestString filter c &&
  match conf store with
  | None => true
  | Some cfg => isInListFile c cfg lst
  end.

(** The inner loop over the candidates; testing a nil filter panics. *)
Fixpoint anyCandidate (store : bloomStore) (filter : option BloomFilter)
    (lst : GudgeonList) (domains : list string) : result bool :=
  match domains with
  | [] => Ret false
  | c :: rest =>
      match filter with
      | None => Panic
      | Some f =>
          if candidateHits store f lst c then Ret true
          else anyCandidate store filter lst rest
      end
  end.

(** The outer loop over the lists of one kind. *)
Fixpoint anyList (store : bloomStore) (lists : list GudgeonList)
    (domains : list string) : result bool :=
  match lists with
  | [] => Ret false
  | lst :: rest =>
      match anyCandidate store (bloomFilters store !! CanonicalName lst)
                         lst domains with
      | Panic => Panic
      | Ret true => Ret true
      | Ret false => anyList store rest domains
      end
  end.

(** The loop that gathers the allow and the block lists of the groups. *)
Fixpoint gatherLists (store : bloomStore) (groups : list string)
    (allowLists blockLists : list GudgeonList)
  : list GudgeonList * list GudgeonList :=
  match groups with
  | [] => (allowLists, blockLists)
  | g :: rest =>
      let allowLists' :=
        match groupAllowMap store !! g with
        | Some ls => (allowLists ++ ls)%list
        | None => allowLists
        end in
      let blockLists' :=
        match groupBlockMap store !! g with
        | Some ls => (blockLists ++ ls)%list
        | None => blockLists
        end in
      gatherLists store rest allowLists' blockLists'
  end.

(** [bloomStore.IsMatchAny]. *)
Definition IsMatchAny (store : bloomStore) (groups : list string)
    (domain : string) : result Match :=
  let domains := DomainList domain in
  let '(allowLists, blockLists) := gatherLists store groups [] [] in
  match anyList store allowLists domains with
  | Panic => Panic
  | Ret true => Ret MatchAllow
  | Ret false =>
      match anyList store blockLists domains with
      | Panic => Panic
      | Ret true => Ret MatchBlock
      | Ret false => Ret MatchNone
      end
  end.

(** [bloomStore.IsMatch]. *)
Definition IsMatch (store : bloomStore) (group domain : string) : result Match :=
  IsMatchAny store [group] domain.

(** Every list of a group has its filter: what [Load] establishes and
    [IsMatchAny] relies on when it tests a filter. *)
Definition wf (store : bloomStore) : Prop :=
  forall (m : gmap string (list GudgeonList)) g ls l,
    (m = groupAllowMap store \/ m = groupBlockMap store) ->
    m !! g = Some ls -> In l ls ->
    is_Some (bloomFilters store !! CanonicalName l).

(** The allow lists and the block lists of the groups, in group order. *)
Definition allowListsOf (store : bloomStore) (groups : list string) : list GudgeonList :=
  flat_map (fun g => default [] (groupAllowMap store !! g)) groups.

Definition blockListsOf (store : bloomStore) (groups : list string) : list GudgeonList :=
  flat_map (fun g => default [] (groupBlockMap store !! g)) groups.

(** A candidate of the fan-out hits a list when the list's filter tests
    positive and the confirm pass, where there is one, agrees. *)
Definition listHits (store : bloomStore) (domains : list string)
    (l : GudgeonList) : bool :=
  match bloomFilters store !! CanonicalName l with
  | Some f => existsb (candidateHits store f l) domains
  | None => false
  end.

(** The lookup as the specification words it: allow lists of all groups
    first, then block lists, then none. *)
Definition IsMatchAny_spec (store : bloomStore) (groups : list string)
    (domain : string) : Match :=
  let domains := DomainList domain in
  if existsb (listHits store domains) (allowListsOf store groups) then MatchAllow
  else if existsb (listHits store domains) (blockListsOf store groups) then MatchBlock
  else MatchNone.

(** A scanned line matches a candidate: it is no comment, and what is
    left of it after the address folds together with the candidate. *)
Definition lineMatches (text line : string) : bool :=
  negb (HasPrefix line comment || HasPrefix line altComment) &&
  EqualFold text (dropLeading line).

(** The confirm pass by its outcomes on the file system: a list without
    a path and a file that does not open confirm every candidate; a file
    that opens confirms the candidates that one of the scanned lines
    matches, whether or not the scanner stopped on a read error. *)
Definition confirms (cfg : GudgeonConfig) (l : GudgeonList) (c : string) : bool :=
  String.eqb "" (PathToList cfg l) ||
  match Open (PathToList cfg l) with
  | None => true
  | Some f => existsb (lineMatches c) (lines f)
  end.

(** A list is hit when its filter tests positive on a candidate that the
    confirm pass confirms. *)
Definition confirmedHit (store : bloomStore) (cfg : GudgeonConfig)
    (domains : list string) (l : GudgeonList) : bool :=
  match bloomFilters store !! CanonicalName l with
  | Some f => existsb (fun c => TestString f c && confirms cfg l c) domains
  | None => false
  end.

(** The lookup of a store with a configuration, by the outcomes of the
    confirm pass: allow lists first, then block lists, then none. *)
Definition IsMatchAny_confirmed (store : bloomStore) (cfg : GudgeonConfig)
    (groups : list string) (domain : string) : Match :=
  let domains := DomainList domain in
  if existsb (confirmedHit store cfg domains) (allowListsOf store groups)
  then MatchAllow
  else if existsb (confirmedHit store cfg domains) (blockListsOf store groups)
  then MatchBlock
  else MatchNone.

(** The candidates of a name and the scanned lines of the files of the
    lists are ASCII strings. *)
Definition asciiLookup (cfg : GudgeonConfig) (lists : list GudgeonList)
    (domain : string) : Prop :=
  (forall c, In c (DomainList domain) -> isASCII c = true) /\
  (forall l f line, In l lists -> Open (PathToList cfg l) = Some f ->
                    In line (lines f) -> isASCII line = true).

(** The store with another configuration pointer. *)
Definition setConf (store : bloomStore) (c : option GudgeonConfig) : bloomStore :=
  {| conf := c;
     groupAllowMap := groupAllowMap store;
     groupBlockMap := groupBlockMap store;
     bloomFilters := bloomFilters store |}.

(** A candidate hits a list: the list has a filter, and the condition of
    the inner loop holds of it. *)
Definition hits (store : bloomStore) (l : GudgeonList) (c : string) : Prop :=
  exists f, bloomFilters store !! CanonicalName l = Some f /\
            candidateHits store f l c = true.

(** Two candidates that fold together and that every filter of the store
    answers alike. *)
Definition alike (store : bloomStore) (c1 c2 : string) : Prop :=
  EqualFold c1 c2 = true /\
  forall name f, bloomFilters store !! name = Some f ->
                 TestString f c1 = TestString f c2.

End Store.

(** An exact filter: the set of the strings added, with no false
    positive.  Lists are named and found by their name and source. *)
Definition exactDeps (fs : string -> option File) : Deps :=
  {| BloomFilter := list string;
     NewWithEstimates := fun _ => [];
     TestString := fun f s => StringIn s f;
     AddString := fun f s => s :: f;
     GudgeonConfig := unit;
     PathToList := fun _ l => Src l;
     CanonicalName := Name;
     ParseType := fun t => if String.eqb t "allow" then ALLOW else BLOCK;
     comment := "#";
     altComment := "//";
     DomainList := DomainList_spec;
     Open := fs |}.

(** Worked examples: an allow list and a block list of the default
    group, over a file system that has their files and over one where
    no file opens. *)
Definition safeList : GudgeonList :=
  {| Name := "safe"; Type_ := "allow"; Src := "/lists/safe.list"; Tags := [] |}.

Definition adsList : GudgeonList :=
  {| Name := "ads"; Type_ := "block"; Src := "/lists/ads.list"; Tags := [] |}.

Definition listFiles (path : string) : option File :=
  if String.eqb path "/lists/safe.list"
  then Some {| lines := ["safe.ads.example"]; scanErr := false |}
  else if String.eqb path "/lists/ads.list"
  then Some {| lines := ["# served by the ad network"; "0.0.0.0 Foo.Example";
                         "ads.example"];
               scanErr := false |}
  else None.

Definition noFiles (path : string) : option File := None.

(** A file system where the file of the block list no longer holds the
    names of its filter, and where reading it ends on an error. *)
Definition staleFiles (path : string) : option File :=
  if String.eqb path "/lists/ads.list"
  then Some {| lines := ["# emptied"; "0.0.0.0 other.example"]; scanErr := true |}
  else None.

Definition exampleStore (fs : string -> option File) : bloomStore (D := exactDeps fs) :=
  let D := exactDeps fs in
  let s1 := fst (Load emptyStore "default" [Some "safe.ads.example"] (Some tt) safeList) in
  fst (Load s1 "default" [Some "ads.example"; Some "foo.example"] (Some tt) adsList).

(** A store whose block filter was given both spellings of a name. *)
Definition bothSpellings : bloomStore (D := exactDeps listFiles) :=
  fst (Load (D := exactDeps listFiles) emptyStore "default"
            [Some "foo.example"; Some "FoO.ExAmple"] (Some tt) adsList).

End Rule.

(* --------------------------------------------------------------------- *)
(** ** Package [dns]: messages                                            *)
(* --------------------------------------------------------------------- *)

Module Dns.

Record Question : Type := {
  QName : string;
  Qtype : N;
  Qclass : N
}.

(** [dns.Msg], with the header fields [SetReply] touches. *)
Record Msg : Type := {
  Id : N;
  Response : bool;
  Opcode : N;
  RecursionDesired : bool;
  CheckingDisabled : bool;
  Rcode : N;
  Questions : list Question;
  Answer : list string
}.

Definition OpcodeQuery : N := 0.
Definition RcodeSuccess : N := 0.

(** [Msg.SetReply]. *)
Definition SetReply (m request : Msg) : Msg :=
  let query := N.eqb (Opcode request) OpcodeQuery in
  {| Id := Id request;
     Response := true;
     Opcode := Opcode request;
     RecursionDesired :=
       if query then RecursionDesired request else RecursionDesired m;
     CheckingDisabled :=
       if query then CheckingDisabled request else CheckingDisabled m;
     Rcode := RcodeSuccess;
     Questions :=
       match Questions request with
       | q :: _ => [q]
       | [] => Questions m
       end;
     Answer := Answer m |}.

End Dns.

(* --------------------------------------------------------------------- *)
(** ** Package [engine]                                                   *)
(* --------------------------------------------------------------------- *)

Module Engine.
Import Util Dns.

(** [net.IP]: a byte slice, nil when empty. *)
Definition IP : Type := list Byte.byte.

Definition v4InV6Prefix : IP :=
  [Byte.x00; Byte.x00; Byte.x00; Byte.x00; Byte.x00; Byte.x00;
   Byte.x00; Byte.x00; Byte.x00; Byte.x00; Byte.xff; Byte.xff].

(** [IP.To16]. *)
Definition To16 (ip : IP) : IP :=
  if (length ip =? 4)%nat then (v4InV6Prefix ++ ip)%list
  else if (length ip =? 16)%nat then ip
  else [].

(** The [config] structures, with the fields the engine reads. *)
Record GudgeonMatchRange : Type := {
  Start : string;
  End_ : string
}.

Record GudgeonMatch : Type := {
  IP_ : string;
  Range : option GudgeonMatchRange;
  Net : string
}.

Record GundgeonConsumer : Type := {
  ConsumerName : string;
  Groups : list string;
  Matches : list GudgeonMatch
}.

Record GudgeonGroup : Type := {
  GroupName : string;
  GroupLists : list string;
  GroupTags : list string
}.

Record GudgeonConfig : Type := {
  ConfigGroups : list GudgeonGroup;
  Consumers : list GundgeonConsumer
}.

(** An active group and an active consumer of the engine. *)
Record group : Type := {
  configGroup : GudgeonGroup
}.

Record consumer : Type := {
  configConsumer : GundgeonConsumer;
  groups : list group;
  groupNames : list string
}.

(** The collaborators of the engine: address parsing of package [net]
    ([None] for a nil result or an error) and the query cache, whose
    [Query] may change the cache. *)
Class Deps : Type := {
  ParseIP : string -> option IP;
  IPNet : Type;
  ParseCIDR : string -> option IPNet;
  Contains : IPNet -> IP -> bool;
  Cache : Type;
  Query : Cache -> string -> Msg -> option Msg * bool * Cache
}.

(** A rule store behind the [rule.RuleStore] interface. *)
Record RuleStore : Type := {
  IsMatchAny : list string -> string -> result Rule.Match
}.

Section Engine.
Context `{D : Deps}.

Record engine : Type := {
  consumers : list consumer;
  store : RuleStore;
  cache : Cache
}.

(** The search for the default group in [New]. *)
Fixpoint foundDefaultGroup (gs : list GudgeonGroup) : bool :=
  match gs with
  | [] => false
  | g :: rest =>
      if String.eqb "default" (GroupName g) then true else foundDefaultGroup rest
  end.

(** The working groups of [New]: those of the configuration, and an
    injected default group behind them when none is declared. *)
Definition workingGroups (conf : GudgeonConfig) : list GudgeonGroup :=
  if foundDefaultGroup (ConfigGroups conf) then ConfigGroups conf
  else (ConfigGroups conf ++
        [{| GroupName := "default"; GroupLists := []; GroupTags := ["default"] |}])%list.

(** The loop of [New] that links a consumer to the groups it names. *)
Fixpoint linkGroups (gs : list group) (configConsumer0 : GundgeonConsumer)
    (c : consumer) : consumer :=
  match gs with
  | [] => c
  | g :: rest =>
      if StringIn (GroupName (configGroup g)) (Groups configConsumer0)
      then linkGroups rest configConsumer0
             {| configConsumer := configConsumer c;
                groups := (groups c ++ [g])%list;
                groupNames := (groupNames c ++ [GroupName (configGroup g)])%list |}
      else linkGroups rest configConsumer0 c
  end.

(** The consumers [New] attaches to the engine. *)
Definition newConsumers (conf : GudgeonConfig) : list consumer :=
  let gs := map (fun cg => {| configGroup := cg |}) (workingGroups conf) in
  map (fun cc => linkGroups gs cc
                   {| configConsumer := cc; groups := []; groupNames := [] |})
      (Consumers conf).

(** [New], after the lists are loaded into the store. *)
Definition New (conf : GudgeonConfig) (st : RuleStore) (c : Cache) : engine :=
  {| consumers := newConsumers conf; store := st; cache := c |}.

Definition isEq (c : comparison) : bool :=
  match c with Eq => true | _ => false end.

Definition isGt (c : comparison) : bool :=
  match c with Gt => true | _ => false end.

Definition isLt (c : comparison) : bool :=
  match c with Lt => true | _ => false end.

(** The body of the inner loop of [consumerGroups]: the three tests of
    one match entry, in the order of the source. *)
Definition testMatch (activeConsumer : consumer) (m : GudgeonMatch)
    (consumerIp : IP) (foundConsumer : option consumer) : option consumer :=
  let found1 :=
    if negb (String.eqb "" (IP_ m)) then
      match ParseIP (IP_ m) with
      | Some matchIp =>
          if isEq (Compare (To16 matchIp) (To16 consumerIp))
          then Some activeConsumer else foundConsumer
      | None => foundConsumer
      end
    else foundConsumer in
  let found2 :=
    match found1, Range m with
    | None, Some r =>
        if negb (String.eqb "" (Start r)) && negb (String.eqb "" (End_ r)) then
          match ParseIP (Start r), ParseIP (End_ r) with
          | Some startIp, Some endIp =>
              if negb (isLt (Compare (To16 consumerIp) (To16 startIp))) &&
                 negb (isGt (Compare (To16 consumerIp) (To16 endIp)))
              then Some activeConsumer else found1
          | _, _ => found1
          end
        else found1
    | _, _ => found1
    end in
  match found2 with
  | None =>
      if negb (String.eqb "" (Net m)) then
        match ParseCIDR (Net m) with
        | Some parsedNet =>
            if Contains parsedNet consumerIp then Some activeConsumer else found2
        | None => found2
        end
      else found2
  | Some _ => found2
  end.

(** The inner loop, over the match entries of one consumer. *)
Fixpoint matchLoop (activeConsumer : consumer) (ms : list GudgeonMatch)
    (consumerIp : IP) (foundConsumer : option consumer) : option consumer :=
  match ms with
  | [] => foundConsumer
  | m :: rest =>
      match testMatch activeConsumer m consumerIp foundConsumer with
      | Some c => Some c
      | None => matchLoop activeConsumer rest consumerIp None
      end
  end.

(** The outer loop, over the consumers in the order of the engine. *)
Fixpoint consumerLoop (cs : list consumer) (consumerIp : IP)
    (foundConsumer : option consumer) : option consumer :=
  match cs with
  | [] => foundConsumer
  | activeConsumer :: rest =>
      match matchLoop activeConsumer (Matches (configConsumer activeConsumer))
                      consumerIp foundConsumer with
      | Some c => Some c
      | None => consumerLoop rest consumerIp None
      end
  end.

(** [engine.consumerGroups]. *)
Definition consumerGroups (e : engine) (consumerIp : IP) : list string :=
  match consumerLoop (consumers e) consumerIp None with
  | Some foundConsumer =>
      if (0 <? length (groups foundConsumer))%nat then groupNames foundConsumer
      else ["default"]
  | None => ["default"]
  end.

(** [engine.IsDomainBlocked]. *)
Definition IsDomainBlocked (e : engine) (consumerIp : IP) (domain : string)
  : result bool :=
  let domain' := if HasSuffix domain "." then dropLast domain else domain in
  let names := consumerGroups e consumerIp in
  match IsMatchAny (store e) names domain' with
  | Panic => Panic
  | Ret r =>
      Ret (negb (match r with
                 | Rule.MatchAllow | Rule.MatchNone => true
                 | Rule.MatchBlock => false
                 end))
  end.

(** The address [dnsWriter.RemoteAddr()] gives. *)
Inductive Addr : Type :=
| UDPAddr (ip : IP)
| TCPAddr (ip : IP)
| OtherAddr.

(** What [Handle] does to its collaborators, in order. *)
Inductive Event : Type :=
| EvCacheQuery (g : string)
| EvRuleCheck (gs : list string) (domain : string)
| EvWriteMsg (m : Msg).

Record Handled : Type := {
  trace : list Event;
  cacheAfter : Cache;
  panicked : bool
}.

(** The cache loop of [Handle]: [response] and [found] are assigned at
    every group, and the loop breaks at the first [found]. *)
Fixpoint cacheLoop (c : Cache) (gs : list string) (request : Msg)
    (response : option Msg) : option Msg * Cache * list Event :=
  match gs with
  | [] => (response, c, [])
  | g :: rest =>
      let '(response', found, c') := Query c g request in
      if found then (response', c', [EvCacheQuery g])
      else let '(r, c'', evs) := cacheLoop c' rest request response' in
           (r, c'', EvCacheQuery g :: evs)
  end.

(** The cache after it was asked about the request for each of the
    groups, one after the other. *)
Definition cacheAt (c : Cache) (gs : list string) (request : Msg) : Cache :=
  fold_left (fun c' g => snd (Query c' g request)) gs c.

(** [engine.Handle]. *)
Definition Handle (e : engine) (remote : Addr) (request : Msg) : Handled :=
  let a : IP :=
    match remote with
    | UDPAddr ip => ip
    | TCPAddr ip => ip
    | OtherAddr => []
    end in
  let gs := consumerGroups e a in
  let '(response, c, evs) := cacheLoop (cache e) gs request None in
  match response with
  | Some r =>
      {| trace := (evs ++ [EvWriteMsg (SetReply r request)])%list;
         cacheAfter := c; panicked := false |}
  | None =>
      match Questions request with
      | [] => {| trace := evs; cacheAfter := c; panicked := true |}
      | q :: _ =>
          let domain := QName q in
          let domain' := if HasSuffix domain "." then dropLast domain else domain in
          match IsDomainBlocked e a domain with
          | Panic =>
              {| trace := (evs ++ [EvRuleCheck (consumerGroups e a) domain'])%list;
                 cacheAfter := c; panicked := true |}
          | Ret _ =>
              {| trace := (evs ++ [EvRuleCheck (consumerGroups e a) domain'])%list;
                 cacheAfter := c; panicked := false |}
          end
      end
  end.

(** The three tests of a match entry, each on its own. *)
Definition ipHit (consumerIp : IP) (m : GudgeonMatch) : bool :=
  negb (String.eqb "" (IP_ m)) &&
  match ParseIP (IP_ m) with
  | Some matchIp => isEq (Compare (To16 matchIp) (To16 consumerIp))
  | None => false
  end.

Definition rangeHit (consumerIp : IP) (m : GudgeonMatch) : bool :=
  match Range m with
  | Some r =>
      negb (String.eqb "" (Start r)) && negb (String.eqb "" (End_ r)) &&
      match ParseIP (Start r), ParseIP (End_ r) with
      | Some startIp, Some endIp =>
          negb (isLt (Compare (To16 consumerIp) (To16 startIp))) &&
          negb (isGt (Compare (To16 consumerIp) (To16 endIp)))
      | _, _ => false
      end
  | None => false
  end.

Definition netHit (consumerIp : IP) (m : GudgeonMatch) : bool :=
  negb (String.eqb "" (Net m)) &&
  match ParseCIDR (Net m) with
  | Some parsedNet => Contains parsedNet consumerIp
  | None => false
  end.

(** A consumer matched by specificity, as the specification words it:
    its exact addresses first, then its ranges, then its networks. *)
Definition matchesBySpecificity (consumerIp : IP) (cc : GundgeonConsumer) : bool :=
  existsb (ipHit consumerIp) (Matches cc) ||
  existsb (rangeHit consumerIp) (Matches cc) ||
  existsb (netHit consumerIp) (Matches cc).

(** Classification as the specification words it: the first consumer, in
    the order of declaration, that matches. *)
Definition classify_spec (conf : GudgeonConfig) (consumerIp : IP)
  : option GundgeonConsumer :=
  find (matchesBySpecificity consumerIp) (Consumers conf).

(** The group list as the specification words it: the groups of the
    consumer in their declared order, and default behind them when it
    is not among them. *)
Definition deriveGroups_spec (cc : GundgeonConsumer) : list string :=
  if StringIn "default" (Groups cc) then Groups cc
  else (Groups cc ++ ["default"])%list.

(** The names of the engine's groups that a consumer lists, in the order
    of the engine's groups. *)
Definition linkedNames (conf : GudgeonConfig) (cc : GundgeonConsumer) : list string :=
  List.filter (fun g => StringIn g (Groups cc)) (map GroupName (workingGroups conf)).

(** The question name as [IsDomainBlocked] passes it to the store. *)
Definition stripDot (domain : string) : string :=
  if HasSuffix domain "." then dropLast domain else domain.

Definition isCacheQuery (ev : Event) : bool :=
  match ev with EvCacheQuery _ => true | _ => false end.

Definition isRuleCheck (ev : Event) : bool :=
  match ev with EvRuleCheck _ _ => true | _ => false end.

Definition isWriteMsg (ev : Event) : bool :=
  match ev with EvWriteMsg _ => true | _ => false end.

End Engine.

(** Collaborators for worked examples: [ParseIP] knows dotted quads,
    [ParseCIDR] a dotted quad with a prefix length, and the cache is a
    list of entries by group and question name.  They stand for package
    [net] on the addresses of the examples only (IPv4 in plain decimal
    notation); no theorem rests on them. *)
Definition quadBytes (s : string) : option IP :=
  let parts := Split s "." in
  if (length parts =? 4)%nat then
    fold_right (fun x acc =>
                  match ParseUint x 8, acc with
                  | Some n, Some l =>
                      match Byte.of_N n with Some b => Some (b :: l) | None => None end
                  | _, _ => None
                  end) (Some []) parts
  else None.

Definition ipValue (ip : IP) : N :=
  fold_left (fun acc b => (acc * 256 + Byte.to_N b)%N) ip 0%N.

Definition last4 (ip : IP) : IP := skipn (length ip - 4) ip.

Definition exampleDeps : Deps :=
  {| ParseIP := fun s => option_map (fun q => (v4InV6Prefix ++ q)%list) (quadBytes s);
     IPNet := IP * N;
     ParseCIDR := fun s =>
       match Split s "/" with
       | [a; n] =>
           match quadBytes a, ParseUint n 8 with
           | Some q, Some k => if (k <=? 32)%N then Some (q, k) else None
           | _, _ => None
           end
       | _ => None
       end;
     Contains := fun '(q, k) ip =>
       ((length ip =? 4)%nat || (length ip =? 16)%nat) &&
       N.eqb (N.shiftr (ipValue q) (32 - k)) (N.shiftr (ipValue (last4 ip)) (32 - k));
     Cache := list (string * string * Msg);
     Query := fun c g request =>
       match find (fun '(g', n, _) =>
                     String.eqb g g' &&
                     match Questions request with
                     | q :: _ => String.eqb (QName q) n
                     | [] => false
                     end) c with
       | Some (_, _, m) => (Some m, true, c)
       | None => (None, false, c)
       end |}.

(** A configuration for worked examples, after the sample configuration
    of the repository: three groups, and consumers by address, range and
    network. *)
Definition byIP (a : string) : GudgeonMatch :=
  {| IP_ := a; Range := None; Net := "" |}.

Definition byRange (a b : string) : GudgeonMatch :=
  {| IP_ := ""; Range := Some {| Start := a; End_ := b |}; Net := "" |}.

Definition byNet (n : string) : GudgeonMatch :=
  {| IP_ := ""; Range := None; Net := n |}.

Definition exampleConfig : GudgeonConfig :=
  {| ConfigGroups :=
       [ {| GroupName := "default"; GroupLists := []; GroupTags := ["default"; "ads"] |};
         {| GroupName := "users"; GroupLists := ["privacy"]; GroupTags := [] |};
         {| GroupName := "open"; GroupLists := []; GroupTags := [] |} ];
     Consumers :=
       [ {| ConsumerName := "endusers"; Groups := ["default"; "users"];
            Matches := [byIP "10.0.0.30"; byRange "10.0.0.35" "10.0.0.45"] |};
         {| ConsumerName := "openmachines"; Groups := ["open"; "default"];
            Matches := [byNet "10.0.2.0/24"] |};
         {| ConsumerName := "guests"; Groups := ["users"];
            Matches := [byNet "10.0.3.0/24"; byIP "10.0.3.9"] |};
         {| ConsumerName := "localtraffic"; Groups := ["default"];
            Matches := [byIP "127.0.0.1"; byNet "10.0.0.0/8"] |} ] |}.

Definition ip4 (a b c d : Byte.byte) : IP := [a; b; c; d].

(** A request for the address of a name, and a cached answer to it. *)
Definition questionA (name : string) : Msg :=
  {| Id := 4242; Response := false; Opcode := 0; RecursionDesired := true;
     CheckingDisabled := false; Rcode := 0;
     Questions := [{| QName := name; Qtype := 1; Qclass := 1 |}];
     Answer := [] |}.

Definition cachedA (name addr : string) : Msg :=
  {| Id := 17; Response := true; Opcode := 0; RecursionDesired := true;
     CheckingDisabled := false; Rcode := 0;
     Questions := [{| QName := name; Qtype := 1; Qclass := 1 |}];
     Answer := [addr] |}.

(** An engine over the example rule store, with an answer for
    ads.example in the cache of the default group. *)
Definition exampleEngine : engine (D := exampleDeps) :=
  New (D := exampleDeps) exampleConfig
      {| IsMatchAny := Rule.IsMatchAny (D := Rule.exactDeps Rule.listFiles)
                                       (Rule.exampleStore Rule.listFiles) |}
      [("default", "ads.example.", cachedA "ads.example." "203.0.113.7")].

(** The same engine as [New] makes it, with the empty cache of
    [cache.New()]. *)
Definition freshEngine : engine (D := exampleDeps) :=
  New (D := exampleDeps) exampleConfig
      {| IsMatchAny := Rule.IsMatchAny (D := Rule.exactDeps Rule.listFiles)
                                       (Rule.exampleStore Rule.listFiles) |}
      [].

End Engine.

(* --------------------------------------------------------------------- *)
(** ** Package [resolver]: the DNS source and the source factory          *)
(* --------------------------------------------------------------------- *)

Module Resolver.
Import Util Dns.

Definition defaultPort : N := 53.
Definition defaultTLSPort : N := 853.
Definition portDelimiter : string := ":".
Definition protoDelimiter : string := "/".
Definition minWorkers : Z := 0.
Definition maxWorkers : Z := 25.
Definition requestBuffer : Z := 100.

(** Instants and durations, in nanoseconds. *)
Definition Time : Type := Z.
Definition Millisecond : Z := 1000000.
Definition Second : Z := 1000 * Millisecond.
Definition workerIdleTime : Z := 10 * Second.
Definition backoffInterval : Z := 500 * Millisecond.
Definition defaultDeadline : Z := 1 * Second.

Definition validProtocols : list string := ["udp"; "tcp"; "tcp-tls"].

(** [tls.Config] and [net.Dialer], with the fields [Load] sets. *)
Record tlsConfigT : Type := {
  InsecureSkipVerify : bool
}.

Record Dialer : Type := {
  Timeout : Z;
  KeepAlive : Z
}.

Record dnsWorkResponse : Type := {
  err : option string;
  response : option Msg
}.

(** [dnsSource].  The request channel holds the buffered messages, the
    close channel counts its tokens; a nil channel is [None].  The wait
    group and the mutex carry no data. *)
Record dnsSource : Type := {
  dnsServer : string;
  port : N;
  remoteAddress : string;
  protocol : string;
  network : string;
  dialer : Dialer;
  backoffTime : option Time;
  tlsConfig : option tlsConfigT;
  closing : bool;
  questionChan : option (list Msg);
  closeChan : option nat;
  workers : Z
}.

(** The zero value of the struct. *)
Definition zeroSource : dnsSource :=
  {| dnsServer := ""; port := 0; remoteAddress := ""; protocol := "";
     network := ""; dialer := {| Timeout := 0; KeepAlive := 0 |};
     backoffTime := None; tlsConfig := None; closing := false;
     questionChan := None; closeChan := None; workers := 0 |}.

(** The source value with the fields of the worker pool and the backoff
    replaced. *)
Definition setPool (source : dnsSource) (b : option Time) (w : Z) : dnsSource :=
  {| dnsServer := dnsServer source; port := port source;
     remoteAddress := remoteAddress source; protocol := protocol source;
     network := network source; dialer := dialer source;
     backoffTime := b; tlsConfig := tlsConfig source;
     closing := closing source; questionChan := questionChan source;
     closeChan := closeChan source; workers := w |}.

Definition setQuestionChan (source : dnsSource) (q : option (list Msg)) : dnsSource :=
  {| dnsServer := dnsServer source; port := port source;
     remoteAddress := remoteAddress source; protocol := protocol source;
     network := network source; dialer := dialer source;
     backoffTime := backoffTime source; tlsConfig := tlsConfig source;
     closing := closing source; questionChan := q;
     closeChan := closeChan source; workers := workers source |}.

Definition setCloseChan (source : dnsSource) (k : option nat) : dnsSource :=
  {| dnsServer := dnsServer source; port := port source;
     remoteAddress := remoteAddress source; protocol := protocol source;
     network := network source; dialer := dialer source;
     backoffTime := backoffTime source; tlsConfig := tlsConfig source;
     closing := closing source; questionChan := questionChan source;
     closeChan := k; workers := workers source |}.

(** A Go [int] of 64 bits after an addition. *)
Definition wrapInt (z : Z) : Z := (z + 2 ^ 63) mod 2 ^ 64 - 2 ^ 63.

(** An established connection: what was dialled, wrapped in TLS or not. *)
Inductive Conn : Type :=
| RawConn (net addr : string)
| TLSClient (inner : Conn) (cfg : option tlsConfigT).

(** A source behind the [Source] interface, by its dynamic type. *)
Inductive SourceImpl (Z H R : Type) : Type :=
| ZoneSource (z : Z)
| HostFileSource (h : H)
| DnsSource (d : dnsSource)
| ResolverSource (r : R).
Arguments ZoneSource {Z H R} z.
Arguments HostFileSource {Z H R} h.
Arguments DnsSource {Z H R} d.
Arguments ResolverSource {Z H R} r.

(** What a call that may wait on a channel comes to. *)
Inductive outcome (A : Type) : Type :=
| Returns (a : A)
| Blocks.
Arguments Returns {A} a.
Arguments Blocks {A}.

(** What [os.Stat] reports: no error, an error that [os.IsNotExist]
    recognises, or another error. *)
Inductive StatResult : Type := StatOk | StatNotExist | StatOtherError.

Definition IsNotExist (r : StatResult) : bool :=
  match r with StatNotExist => true | _ => false end.

(** The collaborators of the package: [net.ParseIP] (only asked whether
    the result is nil), the dialler ([None] for an error),
    [util.IsEmptyResponse], [os.Stat], and the constructors of the
    sources, which are not under src/ ([None] is a nil result). *)
Class Deps : Type := {
  ParseIP : string -> bool;
  Dial : Dialer -> string -> string -> option Conn;
  IsEmptyResponse : option Msg -> bool;
  Stat : string -> StatResult;
  zoneSource : Type;
  hostFileSource : Type;
  resolverSource : Type;
  newZoneSourceFromFile : string -> option zoneSource * option string;
  newHostFileSource : string -> option hostFileSource;
  newDnsSource : string -> option dnsSource;
  newResolverSource : string -> option resolverSource
}.

Section Source.
Context `{D : Deps}.

(** [dnsSource.Name]. *)
Definition Name (source : dnsSource) : string :=
  remoteAddress source ++ "/" ++ protocol source.

(** The first block of [Load]: the specification without its protocol,
    and the protocol, when one is attached and valid. *)
Definition splitProtocol (specification : string) : string * string :=
  if Contains specification protoDelimiter then
    let split := Split specification "/" in
    if (1 <? length split)%nat && StringIn (ToLower (nth 1 split "")) validProtocols
    then (nth 0 split "", ToLower (nth 1 split ""))
    else (specification, "")
  else (specification, "").

(** The second block of [Load]: the server and the port, 0 when there is
    none or it does not parse. *)
Definition splitPort (specification : string) : string * N :=
  if Contains specification portDelimiter then
    let split := Split specification ":" in
    if (1 <? length split)%nat then
      (nth 0 split "",
       match ParseUint (nth 1 split "") 32 with
       | None => 0%N
       | Some parsePort => parsePort
       end)
    else ("", 0%N)
  else (specification, 0%N).

(** [dnsSource.Load]. *)
Definition Load (source : dnsSource) (specification : string) : dnsSource :=
  let '(specification1, protocol1) := splitProtocol specification in
  let '(dnsServer1, port1) := splitPort specification1 in
  (* defaults *)
  let protocol2 := if String.eqb "" protocol1 then "udp" else protocol1 in
  let network2 := if String.eqb "tcp-tls" protocol2 then "tcp" else protocol2 in
  let port2 :=
    if N.eqb port1 0 then
      if String.eqb "tcp-tls" protocol2 then defaultTLSPort else defaultPort
    else port1 in
  {| dnsServer := dnsServer1;
     port := port2;
     remoteAddress :=
       if ParseIP dnsServer1
       then dnsServer1 ++ portDelimiter ++ formatUint port2
       else remoteAddress source;
     protocol := protocol2;
     network := network2;
     dialer := {| Timeout := Second * 2; KeepAlive := 0 |};
     backoffTime := backoffTime source;
     tlsConfig := Some {| InsecureSkipVerify := true |};
     closing := closing source;
     questionChan := Some [];
     closeChan := Some 0%nat;
     workers := 0 |}.

(** [dnsSource.connect]. *)
Definition connect (source : dnsSource) : option Conn :=
  match Dial (dialer source) (network source) (remoteAddress source) with
  | None => None
  | Some conn =>
      if String.eqb (protocol source) "tcp-tls"
      then Some (TLSClient conn (tlsConfig source))
      else Some conn
  end.

(** [len(source.questionChan)]. *)
Definition lenQuestionChan (source : dnsSource) : Z :=
  match questionChan source with
  | None => 0
  | Some q => Z.of_nat (length q)
  end.

(** What a call does to the worker pool, in order. *)
Inductive Event : Type :=
| EvSpawnWorker
| EvSubmit (request : Msg).

(** [dnsSource.increaseWorkers]. *)
Definition increaseWorkers (source : dnsSource) : dnsSource * list Event :=
  if (workers source <=? minWorkers)%Z ||
     ((workers source <=? maxWorkers)%Z &&
      (requestBuffer / 2 <? lenQuestionChan source)%Z)
  then (setPool source (backoffTime source) (wrapInt (workers source + 1)),
        [EvSpawnWorker])
  else (source, []).

(** [dnsSource.decreaseWorkers]; [None] when the send on the close
    channel blocks (the channel is nil or holds [maxWorkers*2] tokens). *)
Definition decreaseWorkers (source : dnsSource) : option dnsSource :=
  if (minWorkers <? workers source)%Z &&
     (lenQuestionChan source <? requestBuffer / 2)%Z
  then match closeChan source with
       | Some k =>
           if (Z.of_nat k <? maxWorkers * 2)%Z
           then Some (setPool (setCloseChan source (Some (S k)))
                              (backoffTime source)
                              (wrapInt (workers source - 1)))
           else None
       | None => None
       end
  else Some source.

(** [dnsSource.query]: the request is submitted to the workers and the
    caller waits for the reply of the worker that took it ([None] when no
    worker ever replies). *)
Definition query (source : dnsSource) (request : Msg)
    (reply : option dnsWorkResponse)
  : outcome (option Msg * option string) * list Event :=
  match questionChan source with
  | None =>
      (Returns (None, Some ("Resolver source '" ++ Name source ++ "' closed")), [])
  | Some _ =>
      match reply with
      | Some answer => (Returns (response answer, err answer), [EvSubmit request])
      | None => (Blocks, [EvSubmit request])
      end
  end.

Record ResolutionContext : Type := {
  SourceUsed : string
}.

(** What the environment contributes to one call of [Answer]: the clock
    at entry, the reply of the worker, the clock in the error branch. *)
Record AnswerEnv : Type := {
  now : Time;
  reply : option dnsWorkResponse;
  errNow : Time
}.

Record Answered : Type := {
  sourceAfter : dnsSource;
  contextAfter : option ResolutionContext;
  events : list Event;
  returned : outcome (option Msg * option string)
}.

(** [dnsSource.Answer]. *)
Definition Answer (source : dnsSource) (context : option ResolutionContext)
    (request : option Msg) (env : AnswerEnv) : Answered :=
  let asleep :=
    match backoffTime source with
    | Some b => (now env <? b)%Z
    | None => false
    end in
  if asleep then
    {| sourceAfter := source; contextAfter := context; events := [];
       returned := Returns (None, None) |}
  else
    let source1 := setPool source None (workers source) in
    match request with
    | None =>
        {| sourceAfter := source1; contextAfter := context; events := [];
           returned := Returns (None, None) |}
    | Some req =>
        if negb (RecursionDesired req) then
          {| sourceAfter := source1; contextAfter := context; events := [];
             returned := Returns (None, None) |}
        else
          let '(source2, evs1) := increaseWorkers source1 in
          let '(res, evs2) := query source2 req (reply env) in
          match res with
          | Blocks =>
              {| sourceAfter := source2; contextAfter := context;
                 events := (evs1 ++ evs2)%list; returned := Blocks |}
          | Returns (resp, Some e) =>
              {| sourceAfter :=
                   setPool source2 (Some (errNow env + backoffInterval)%Z)
                           (workers source2);
                 contextAfter := context;
                 events := (evs1 ++ evs2)%list;
                 returned := Returns (None, Some e) |}
          | Returns (resp, None) =>
              {| sourceAfter := source2;
                 contextAfter :=
                   match context with
                   | Some ctx =>
                       if negb (IsEmptyResponse resp) &&
                          String.eqb (SourceUsed ctx) ""
                       then Some {| SourceUsed := Name source2 |}
                       else context
                   | None => None
                   end;
                 events := (evs1 ++ evs2)%list;
                 returned := Returns (resp, None) |}
          end
    end.

(** [NewSource]. *)
Definition NewSource (sourceSpecification : string)
  : option (SourceImpl zoneSource hostFileSource resolverSource) :=
  if negb (IsNotExist (Stat sourceSpecification)) then
    match fst (newZoneSourceFromFile sourceSpecification) with
    | None => option_map HostFileSource (newHostFileSource sourceSpecification)
    | Some source => Some (ZoneSource source)
    end
  else if ParseIP sourceSpecification ||
          Contains sourceSpecification ":" ||
          Contains sourceSpecification "/"
  then option_map DnsSource (newDnsSource sourceSpecification)
  else option_map ResolverSource (newResolverSource sourceSpecification).

(** What happens to a source between two calls: a call of [Answer], or the
    workers and the other callers filling and draining the request
    buffer, which holds [requestBuffer] messages at most. *)
Inductive step : dnsSource -> dnsSource -> Prop :=
| step_answer source context request env :
    step source (sourceAfter (Answer source context request env))
| step_buffer source q q' :
    questionChan source = Some q ->
    (Z.of_nat (length q') <= requestBuffer)%Z ->
    step source (setQuestionChan source (Some q')).

(** The states a loaded source reaches. *)
Inductive reachable (source0 : dnsSource) : dnsSource -> Prop :=
| reach_refl : reachable source0 source0
| reach_step s s' : reachable source0 s -> step s s' -> reachable source0 s'.

(** One call of [Answer] as its caller makes it. *)
Record Call : Type := {
  callContext : option ResolutionContext;
  callRequest : option Msg;
  callEnv : AnswerEnv
}.

(** A sequence of calls, one after the other on the same source: the
    source after the last one, and what each call came to. *)
Fixpoint run (source : dnsSource) (calls : list Call) : dnsSource * list Answered :=
  match calls with
  | [] => (source, [])
  | c :: rest =>
      let a := Answer source (callContext c) (callRequest c) (callEnv c) in
      let '(source', results) := run (sourceAfter a) rest in
      (source', a :: results)
  end.

End Source.

(** Collaborators for worked examples: [ParseIP] knows dotted quads only,
    dialling succeeds, no file exists, and each constructor returns the
    specification it was given. *)
Definition dottedQuad (s : string) : bool :=
  let parts := Split s "." in
  (length parts =? 4)%nat &&
  forallb (fun x => match ParseUint x 8 with Some _ => true | None => false end) parts.

Definition exampleDepsWith (mk : string -> option dnsSource) : Deps :=
  {| ParseIP := dottedQuad;
     Dial := fun _ net addr => Some (RawConn net addr);
     IsEmptyResponse := fun m => match m with
                                 | Some r => (length (Dns.Answer r) =? 0)%nat
                                 | None => true
                                 end;
     Stat := fun _ => StatNotExist;
     zoneSource := string;
     hostFileSource := string;
     resolverSource := string;
     newZoneSourceFromFile := fun s => (None, Some "no records");
     newHostFileSource := fun s => Some s;
     newDnsSource := mk;
     newResolverSource := fun s => Some s |}.

Definition exampleDeps : Deps :=
  exampleDepsWith
    (fun s => Some (Load (D := exampleDepsWith (fun _ => None)) zeroSource s)).

(** The same collaborators over a file system where hosts is a regular
    file: [os.Stat] of a path below it fails with ENOTDIR, which is not
    the error of a missing file. *)
Definition notDirDeps : Deps :=
  {| ParseIP := @ParseIP exampleDeps;
     Dial := @Dial exampleDeps;
     IsEmptyResponse := @IsEmptyResponse exampleDeps;
     Stat := fun s => if String.eqb s "hosts" then StatOk
                      else if HasPrefix s "hosts/" then StatOtherError
                      else StatNotExist;
     zoneSource := string;
     hostFileSource := string;
     resolverSource := string;
     newZoneSourceFromFile := fun s => (None, Some "no records");
     newHostFileSource := fun s => Some s;
     newDnsSource := @newDnsSource exampleDeps;
     newResolverSource := fun s => Some s |}.


(** A specification of the form host[:port][/proto]. *)
Definition mkSpec (host : string) (p proto : option string) : string :=
  host ++ match p with Some x => ":" ++ x | None => "" end
       ++ match proto with Some x => "/" ++ x | None => "" end.

(** The port a port text stands for: its value when it parses to a
    non-zero number of 32 bits, and no port otherwise. *)
Definition portOf (p : option string) : option N :=
  match p with
  | Some x =>
      match ParseUint x 32 with
      | Some n => if N.eqb n 0 then None else Some n
      | None => None
      end
  | None => None
  end.

Definition noDelim (s : string) : Prop :=
  hasByte ":" s = false /\ hasByte "/" s = false.

End Resolver.

(* --------------------------------------------------------------------- *)
(** ** Package [rule]: loading, seen from the stores it builds            *)
(* --------------------------------------------------------------------- *)

Module RuleLoad.
Import Util Rule.

Section Loaded.
Context `{D : Deps}.

(** What the filter library promises: a string that was added tests
    positive, and stays positive when more strings are added. *)
Definition noFalseNegatives : Prop :=
  (forall f s, TestString (AddString f s) s = true) /\
  (forall f s t, TestString f t = true -> TestString (AddString f s) t = true).

(** The stores a program can hold: the zero value, and what [Load]
    makes of one. *)
Inductive loaded : bloomStore -> Prop :=
| loaded_zero : loaded emptyStore
| loaded_Load store group rules cfg lst :
    loaded store -> loaded (fst (Load store group rules cfg lst)).

(** The texts of the rules that are not nil. *)
Fixpoint texts (rules : list Rule) : list string :=
  match rules with
  | [] => []
  | None :: rest => texts rest
  | Some t :: rest => t :: texts rest
  end.

(** No group holds two lists of the same canonical name. *)
Definition distinctLists (store : bloomStore) : Prop :=
  forall (m : gmap string (list GudgeonList)) g ls,
    (m = groupAllowMap store \/ m = groupBlockMap store) ->
    m !! g = Some ls -> NoDup (map CanonicalName ls).

(** Whether a group has lists of either kind in the store. *)
Definition knownGroup (store : bloomStore) (g : string) : bool :=
  match groupAllowMap store !! g, groupBlockMap store !! g with
  | None, None => false
  | _, _ => true
  end.

End Loaded.

(** A string without white space. *)
Definition noSpace (s : string) : Prop :=
  forall c, hasByte c s = true -> isSpace c = false.

(** A hosts file whose line names two hosts behind the address. *)
Definition hostsFiles (path : string) : option File :=
  if String.eqb path "/lists/ads.list"
  then Some {| lines := ["0.0.0.0 ads.example tracker.example"]; scanErr := false |}
  else None.

End RuleLoad.

(* --------------------------------------------------------------------- *)
(** ** Package [engine]: the lists of a group                             *)
(* --------------------------------------------------------------------- *)

Module EngineLists.
Import Util Rule.

(** The inner loop of [assignedLists]: whether a tag of the list is
    among the tags asked for; it stops at the first. *)
Fixpoint tagLoop (tags listTags : list string) : bool :=
  match tags with
  | [] => false
  | tag :: rest => if StringIn tag listTags then true else tagLoop rest listTags
  end.

(** The outer loop of [assignedLists]. *)
Fixpoint assignedLoop (lists : list GudgeonList) (listNames listTags : list string)
    (should : list GudgeonList) : list GudgeonList :=
  match lists with
  | [] => should
  | lst :: rest =>
      if StringIn (Name lst) listNames
      then assignedLoop rest listNames listTags (should ++ [lst])%list
      else if tagLoop (Tags lst) listTags
      then assignedLoop rest listNames listTags (should ++ [lst])%list
      else assignedLoop rest listNames listTags should
  end.

(** [assignedLists]. *)
Definition assignedLists (listNames listTags : list string)
    (lists : list GudgeonList) : list GudgeonList :=
  assignedLoop lists listNames listTags [].

(** A list that a group names, or one of whose tags it asks for. *)
Definition assigned (listNames listTags : list string) (lst : GudgeonList) : bool :=
  StringIn (Name lst) listNames || existsb (fun tag => StringIn tag listTags) (Tags lst).

End EngineLists.

(* --------------------------------------------------------------------- *)
(** ** Package [resolver]: the workers of the DNS source                  *)
(* --------------------------------------------------------------------- *)

Module Pool.
Import Util Dns Resolver.

(** [syscall.EPIPE], an errno. *)
Definition EPIPE : N := 32.

(** What the field [Err] of a [*net.OpError] holds: a bare
    [syscall.Errno], a [*os.SyscallError] around one (how package [net]
    reports the error of a system call), or another error. *)
Inductive opCause : Type :=
| Errno (code : N)
| SyscallError (call : string) (code : N)
| OtherCause (text : string).

(** The errors of the network, as the tcp worker tells them apart: a
    [*net.OpError] with its [Err], the value [io.EOF], and every other
    error; [text] is what [Error()] gives. *)
Inductive netError : Type :=
| OpError (cause : opCause) (text : string)
| EndOfFile
| OtherError (text : string).

Definition errorText (e : netError) : string :=
  match e with
  | OpError _ text => text
  | EndOfFile => "EOF"
  | OtherError text => text
  end.

(** The test of the tcp worker before it dials again:
    [(ok && nErr.Err == syscall.EPIPE) || err == io.EOF].  The
    comparison of the interface value [nErr.Err] with [syscall.EPIPE]
    holds for a bare errno only. *)
Definition retriable (e : netError) : bool :=
  match e with
  | OpError (Errno code) _ => N.eqb code EPIPE
  | OpError _ _ => false
  | EndOfFile => true
  | OtherError _ => false
  end.

(** What an attempt on the network comes to. *)
Inductive attempt (A : Type) : Type :=
| Done (a : A)
| Failed (e : netError).
Arguments Done {A} a.
Arguments Failed {A} e.

(** What one call of [handle] meets on the connection: the outcome of
    the write, and of the read that follows it. *)
Record HandleIO : Type := {
  written : option netError;
  readMsg : attempt Msg
}.

(** [dnsSource.handle]: the deadline is set, the request written, and
    the response read when the write went through. *)
Definition handle (io : HandleIO) : option Msg * option netError :=
  match written io with
  | Some e => (None, Some e)
  | None =>
      match readMsg io with
      | Failed e => (None, Some e)
      | Done m => (Some m, None)
      end
  end.

(** What the network does during one work item of a worker: the first
    dial and exchange, and the dial and exchange of a retry. *)
Record WorkEnv : Type := {
  firstConnect : attempt Conn;
  firstHandle : HandleIO;
  reconnect : attempt Conn;
  secondHandle : HandleIO
}.

(** What a worker did with one work item: the connection it holds
    afterwards, the replies it sent on the response channel, how often
    it ran [handle], how many connections it opened and closed, and
    whether the worker returns. *)
Record Worked : Type := {
  coAfter : option Conn;
  replies : list dnsWorkResponse;
  handled : nat;
  opened : nat;
  closed : nat;
  returns : bool
}.

Definition mkReply (e : option netError) (r : option Msg) : dnsWorkResponse :=
  {| err := option_map errorText e; response := r |}.

(** The case of [udpWorker] that takes a work item off the request
    channel; [None] is the nil item a closed channel gives. *)
Definition udpWork (closing : bool) (work : option Msg) (env : WorkEnv)
  : result Worked :=
  if negb closing then
    match firstConnect env with
    | Failed e =>
        match work with
        | None => Panic
        | Some _ =>
            Ret {| coAfter := None; replies := [mkReply (Some e) None];
                   handled := 0; opened := 0; closed := 0; returns := false |}
        end
    | Done co =>
        match work with
        | None => Panic
        | Some _ =>
            let '(resp, e) := handle (firstHandle env) in
            Ret {| coAfter := None; replies := [mkReply e resp];
                   handled := 1; opened := 1; closed := 0; returns := false |}
        end
    end
  else
    Ret {| coAfter := None;
           replies := match work with
                      | Some _ => [mkReply None None]
                      | None => []
                      end;
           handled := 0; opened := 0; closed := 0; returns := true |}.

(** The case of [tcpWorker] that takes a work item off the request
    channel, with the connection [co] the worker holds. *)
Definition tcpWork (closing : bool) (co : option Conn) (work : option Msg)
    (env : WorkEnv) : result Worked :=
  if closing then
    match co, work with
    | Some _, Some _ =>
        Ret {| coAfter := co; replies := [mkReply None None];
               handled := 0; opened := 0; closed := 1; returns := true |}
    | _, _ => Panic
    end
  else
    match work with
    | None => Panic
    | Some _ =>
        (* a connection is opened when there is none *)
        let '(co1, replies1, opened1) :=
          match co with
          | Some c => (Some c, [], 0%nat)
          | None =>
              match firstConnect env with
              | Failed e => (None, [mkReply (Some e) None], 0%nat)
              | Done c => (Some c, [], 1%nat)
              end
          end in
        match co1 with
        | None =>
            Ret {| coAfter := None; replies := replies1; handled := 0;
                   opened := opened1; closed := 0; returns := false |}
        | Some c =>
            match handle (firstHandle env) with
            | (resp, None) =>
                Ret {| coAfter := Some c;
                       replies := (replies1 ++ [mkReply None resp])%list;
                       handled := 1; opened := opened1; closed := 0;
                       returns := false |}
            | (resp, Some e) =>
                if retriable e then
                  match reconnect env with
                  | Failed e' =>
                      Ret {| coAfter := None;
                             replies := (replies1 ++ [mkReply (Some e') resp])%list;
                             handled := 1; opened := opened1; closed := 1;
                             returns := false |}
                  | Done c' =>
                      let '(resp', e') := handle (secondHandle env) in
                      Ret {| coAfter := Some c';
                             replies := (replies1 ++ [mkReply e' resp'])%list;
                             handled := 2; opened := S opened1; closed := 1;
                             returns := false |}
                  end
                else
                  Ret {| coAfter := None;
                         replies := (replies1 ++ [mkReply (Some e) resp])%list;
                         handled := 1; opened := opened1; closed := 1;
                         returns := false |}
            end
        end
    end.

Section Pool.
Context `{D : Deps}.

(** What happens to a source between two calls, the pressure controller
    and the workers included: a step of the source, a call of
    [decreaseWorkers] that returns, or a worker taking a token off the
    close channel. *)
Inductive poolStep : dnsSource -> dnsSource -> Prop :=
| pool_step s s' : step s s' -> poolStep s s'
| pool_decrease s s' : decreaseWorkers s = Some s' -> poolStep s s'
| pool_token s k :
    closeChan s = Some (S k) -> poolStep s (setCloseChan s (Some k)).

Inductive poolReachable (source0 : dnsSource) : dnsSource -> Prop :=
| pool_refl : poolReachable source0 source0
| pool_next s s' : poolReachable source0 s -> poolStep s s' -> poolReachable source0 s'.

(** The tokens in the close channel. *)
Definition tokens (s : dnsSource) : nat :=
  match closeChan s with Some k => k | None => 0%nat end.

End Pool.

Definition isSubmit (ev : Event) : bool :=
  match ev with EvSubmit _ => true | EvSpawnWorker => false end.

End Pool.

(* --------------------------------------------------------------------- *)
(** ** Package [web]: content types of static files                       *)
(* --------------------------------------------------------------------- *)

Module Web.
Import Util.

(** [strings.LastIndex] for a one-byte pattern; -1 when it does not
    occur. *)
Fixpoint LastIndex (s : string) (c : ascii) : Z :=
  match s with
  | EmptyString => (-1)%Z
  | String a s' =>
      let r := LastIndex s' c in
      if (0 <=? r)%Z then (r + 1)%Z
      else if Ascii.eqb a c then 0%Z else (-1)%Z
  end.

(** [s[i:]]; an index outside of the string panics. *)
Definition sliceFrom (s : string) (i : Z) : result string :=
  if (0 <=? i)%Z && (i <=? Z.of_nat (String.length s))%Z
  then Ret (substring (Z.to_nat i) (String.length s - Z.to_nat i) s)
  else Panic.

Section ContentType.
(** [mime.TypeByExtension]; the empty string when the extension is not
    known. *)
Variable TypeByExtension : string -> string.

(** [getContentType], with the cache as it is before and after. *)
Definition getContentType (contentTypeCache : gmap string string)
    (filepath defaultType : string) : result (string * gmap string string) :=
  match contentTypeCache !! filepath with
  | Some value => Ret (value, contentTypeCache)
  | None =>
      let computed :=
        if Contains filepath "." then
          match sliceFrom filepath (LastIndex filepath ".") with
          | Ret ext => Ret (TypeByExtension ext)
          | Panic => Panic
          end
        else Ret "" in
      match computed with
      | Panic => Panic
      | Ret contentType =>
          let contentType' :=
            if String.eqb contentType "" then defaultType else contentType in
          Ret (contentType', <[filepath := contentType']> contentTypeCache)
      end
  end.

End ContentType.

(** Extensions for worked examples. *)
Definition exampleTypes (ext : string) : string :=
  if String.eqb ext ".css" then "text/css; charset=utf-8"
  else if String.eqb ext ".js" then "application/javascript"
  else "".

End Web.

(* --------------------------------------------------------------------- *)
(** ** Package [benchmarks]: the keep file                                *)
(* --------------------------------------------------------------------- *)

Module Keepfile.
Import Util.

(** The loop of [sort.Search] on Go integers of 64 bits; the fuel is the
    number of iterations left. *)
Fixpoint searchLoop (fuel : nat) (f : Z -> bool) (i j : Z) : Z :=
  match fuel with
  | O => i
  | S fuel' =>
      if (i <? j)%Z then
        let h := ((i + j) mod 2 ^ 64 / 2)%Z in
        if negb (f h) then searchLoop fuel' f (h + 1)%Z j
        else searchLoop fuel' f i h
      else i
  end.

(** [sort.Search]: the interval shrinks at every iteration, so as many
    iterations as it is long are enough. *)
Definition Search (n : Z) (f : Z -> bool) : Z := searchLoop (Z.to_nat n) f 0%Z n.

(** [a[i] >= x] on strings, which Go compares byte by byte. *)
Definition stringGe (a x : string) : bool := String.leb x a.

(** [sort.SearchStrings]. *)
Definition SearchStrings (a : list string) (x : string) : Z :=
  Search (Z.of_nat (length a)) (fun i => stringGe (nth (Z.to_nat i) a "") x).

Section Keepfile.
(** [rootdomain], which is not under src/, and [sort.Strings]. *)
Variable rootdomain : string -> string.
Variable sortStrings : list string -> list string.

(** [keepfile.Load] on the content of the file. *)
Definition Load (content : string) : list string :=
  sortStrings (map TrimSpace (Split content "013"%char)).

(** [keepfile.Test]. *)
Definition Test (file : list string) (forMatch : string) : bool :=
  let root := rootdomain forMatch in
  (0 <=? SearchStrings file forMatch)%Z || (0 <=? SearchStrings file root)%Z.

End Keepfile.

(** A sort for worked examples: insertion into a sorted list. *)
Fixpoint insertSorted (x : string) (l : list string) : list string :=
  match l with
  | [] => [x]
  | y :: rest => if String.leb x y then x :: l else y :: insertSorted x rest
  end.

Definition insertionSort (l : list string) : list string :=
  fold_right insertSorted [] l.

End Keepfile.

(* ===================================================================== *)
(** * Part II: properties                                                 *)
(* ===================================================================== *)

(* --------------------------------------------------------------------- *)
(** ** Strings                                                            *)
(* --------------------------------------------------------------------- *)

Module UtilFacts.
Import Util.

Lemma Contains_byte (c : ascii) (s : string) :
  Contains s (String c EmptyString) = hasByte c s.
Proof.
  induction s as [|a s IH]; simpl; [reflexivity|].
  rewrite IH. rewrite (Ascii.eqb_sym c a).
  destruct (Ascii.eqb a c); simpl; [|reflexivity].
  destruct s; reflexivity.
Qed.

Lemma hasByte_app (c : ascii) (s t : string) :
  hasByte c (s ++ t) = hasByte c s || hasByte c t.
Proof.
  induction s as [|a s IH]; simpl; [reflexivity|].
  rewrite IH. apply orb_assoc.
Qed.

Lemma append_empty_r (s : string) : String.append s EmptyString = s.
Proof.
  induction s as [|a s IH]; [reflexivity|].
  change (String a (String.append s EmptyString) = String a s). f_equal. exact IH.
Qed.

Lemma append_assoc (s t u : string) :
  String.append s (String.append t u) = String.append (String.append s t) u.
Proof.
  induction s as [|a s IH]; [reflexivity|].
  change (String a (String.append s (String.append t u)) =
          String a (String.append (String.append s t) u)).
  f_equal. exact IH.
Qed.

Lemma Split_nonempty (s : string) (c : ascii) : Split s c <> [].
Proof.
  destruct s as [|a s]; simpl; [discriminate|].
  destruct (Ascii.eqb a c); [discriminate|].
  destruct (Split s c); discriminate.
Qed.

Lemma Split_none (c : ascii) (s : string) :
  hasByte c s = false -> Split s c = [s].
Proof.
  induction s as [|a s IH]; simpl; [reflexivity|].
  intros H. apply orb_false_iff in H as [Ha Hs].
  rewrite Ha, (IH Hs). reflexivity.
Qed.

Lemma Split_app (c : ascii) (s t : string) :
  hasByte c s = false -> Split (s ++ String c t) c = s :: Split t c.
Proof.
  induction s as [|a s IH]; simpl.
  - intros _. rewrite Ascii.eqb_refl. reflexivity.
  - intros H. apply orb_false_iff in H as [Ha Hs].
    rewrite Ha, (IH Hs). reflexivity.
Qed.

Lemma StringIn_In (x : string) (l : list string) :
  StringIn x l = true <-> In x l.
Proof.
  induction l as [|y l IH]; simpl; [split; [discriminate|tauto]|].
  destruct (String.eqb x y) eqn:E.
  - apply String.eqb_eq in E. subst. tauto.
  - apply String.eqb_neq in E. rewrite IH. split; [tauto|].
    intros [H|H]; [congruence|assumption].
Qed.

(** Lower-casing neither makes nor removes a delimiter. *)
Lemma lowerByte_delim (c a : ascii) :
  c = ":"%char \/ c = "/"%char ->
  Ascii.eqb (lowerByte a) c = Ascii.eqb a c.
Proof.
  intros [-> | ->];
    destruct a as [[] [] [] [] [] [] [] []]; vm_compute; reflexivity.
Qed.

Lemma hasByte_ToLower (c : ascii) (s : string) :
  c = ":"%char \/ c = "/"%char ->
  hasByte c (ToLower s) = hasByte c s.
Proof.
  intros Hc. induction s as [|a s IH]; simpl; [reflexivity|].
  rewrite IH, (lowerByte_delim c a Hc). reflexivity.
Qed.

Lemma EqualFold_ToLower (s t : string) :
  EqualFold s t = String.eqb (ToLower s) (ToLower t).
Proof.
  revert t. induction s as [|a s IH]; intros [|b t]; simpl; try reflexivity.
  rewrite IH. destruct (Ascii.eqb (lowerByte a) (lowerByte b)); reflexivity.
Qed.

(** Two spellings that fold together compare alike with any third. *)
Lemma EqualFold_trans_l (s t u : string) :
  EqualFold s t = true -> EqualFold s u = EqualFold t u.
Proof.
  rewrite !EqualFold_ToLower. intros H.
  apply String.eqb_eq in H. rewrite H. reflexivity.
Qed.

End UtilFacts.

(* --------------------------------------------------------------------- *)
(** ** The DNS source: parsing of the specification                       *)
(* --------------------------------------------------------------------- *)

Module LoadFacts.
Import Util UtilFacts Dns Resolver.

Section Load.
Context `{D : Deps}.

Lemma valid_noDelim (x : string) :
  StringIn (ToLower x) validProtocols = true -> noDelim x.
Proof.
  intros H. apply StringIn_In in H.
  assert (noDelim (ToLower x)) as [H1 H2].
  { simpl in H. destruct H as [<-|[<-|[<-|[]]]]; split; reflexivity. }
  split.
  - rewrite <- (hasByte_ToLower ":" x); [assumption | left; reflexivity].
  - rewrite <- (hasByte_ToLower "/" x); [assumption | right; reflexivity].
Qed.

Lemma valid_nonempty (x : string) :
  StringIn (ToLower x) validProtocols = true -> String.eqb "" (ToLower x) = false.
Proof.
  intros H. apply StringIn_In in H. simpl in H.
  destruct H as [<-|[<-|[<-|[]]]]; reflexivity.
Qed.

(** The second block on host[:port]. *)
Lemma splitPort_spec (host : string) (p : option string) :
  noDelim host ->
  (forall x, p = Some x -> noDelim x) ->
  splitPort (host ++ match p with Some x => ":" ++ x | None => "" end) =
  (host, match p with
         | Some x => match ParseUint x 32 with Some n => n | None => 0%N end
         | None => 0%N
         end).
Proof.
  intros [Hh1 _] Hp. unfold splitPort, portDelimiter. rewrite Contains_byte.
  destruct p as [x|].
  - change (String.append ":" x) with (String ":"%char x).
    rewrite hasByte_app. simpl hasByte at 2. rewrite orb_true_r.
    rewrite (Split_app ":" host x Hh1).
    destruct (Hp x eq_refl) as [Hx1 _]. rewrite (Split_none ":" x Hx1).
    reflexivity.
  - rewrite append_empty_r, Hh1. reflexivity.
Qed.

(** The first block on rest[/proto]. *)
Lemma splitProtocol_spec (rest : string) (proto : option string) :
  hasByte "/" rest = false ->
  (forall x, proto = Some x -> StringIn (ToLower x) validProtocols = true) ->
  splitProtocol (rest ++ match proto with Some x => "/" ++ x | None => "" end) =
  (rest, match proto with Some x => ToLower x | None => "" end).
Proof.
  intros Hr Hproto. unfold splitProtocol, protoDelimiter. rewrite Contains_byte.
  destruct proto as [x|].
  - pose proof (Hproto x eq_refl) as Hv.
    change (String.append "/" x) with (String "/"%char x).
    rewrite hasByte_app. simpl hasByte at 2. rewrite orb_true_r.
    rewrite (Split_app "/" rest x Hr).
    destruct (valid_noDelim x Hv) as [_ Hx2].
    rewrite (Split_none "/" x Hx2). cbv zeta.
    change (nth 1 [rest; x] "") with x. change (nth 0 [rest; x] "") with rest.
    rewrite Hv. reflexivity.
  - rewrite append_empty_r, Hr. reflexivity.
Qed.

(** [Load] on a specification of the form host[:port][/proto]. *)
Lemma Load_mkSpec (source : dnsSource) (host : string) (p proto : option string) :
  noDelim host ->
  (forall x, p = Some x -> noDelim x) ->
  (forall x, proto = Some x -> StringIn (ToLower x) validProtocols = true) ->
  Load source (mkSpec host p proto) =
  let protocol2 := match proto with Some x => ToLower x | None => "udp" end in
  let port2 :=
    match portOf p with
    | Some n => n
    | None => if String.eqb "tcp-tls" protocol2 then defaultTLSPort else defaultPort
    end in
  {| dnsServer := host;
     port := port2;
     remoteAddress :=
       if ParseIP host then host ++ portDelimiter ++ formatUint port2
       else remoteAddress source;
     protocol := protocol2;
     network := if String.eqb "tcp-tls" protocol2 then "tcp" else protocol2;
     dialer := {| Timeout := Second * 2; KeepAlive := 0 |};
     backoffTime := backoffTime source;
     tlsConfig := Some {| InsecureSkipVerify := true |};
     closing := closing source;
     questionChan := Some [];
     closeChan := Some 0%nat;
     workers := 0 |}.
Proof.
  intros Hh Hp Hproto. unfold Load, mkSpec. rewrite append_assoc.
  rewrite splitProtocol_spec; [|
    rewrite hasByte_app; destruct Hh as [_ ->]; destruct p as [x|];
    [apply (Hp x eq_refl) | reflexivity] | assumption].
  rewrite (splitPort_spec host p Hh Hp).
  assert (Hproto2 : (if String.eqb "" match proto with Some x => ToLower x | None => "" end
                     then "udp" else match proto with Some x => ToLower x | None => "" end)
                    = match proto with Some x => ToLower x | None => "udp" end).
  { destruct proto as [x|]; [|reflexivity].
    rewrite (valid_nonempty x (Hproto x eq_refl)). reflexivity. }
  cbv zeta. rewrite Hproto2.
  assert (Hport2 : forall dflt : N,
    (if N.eqb match p with
              | Some x => match ParseUint x 32 with Some n => n | None => 0%N end
              | None => 0%N
              end 0 then dflt
     else match p with
          | Some x => match ParseUint x 32 with Some n => n | None => 0%N end
          | None => 0%N
          end) = match portOf p with Some n => n | None => dflt end).
  { intros dflt. unfold portOf. destruct p as [x|]; [|reflexivity].
    destruct (ParseUint x 32) as [n|]; [|reflexivity].
    destruct (N.eqb n 0); reflexivity. }
  rewrite Hport2. reflexivity.
Qed.

(** Whatever the specification, the loaded protocol is a valid one, the
    network is the protocol with tcp for tcp-tls, the port is not 0 and
    the TLS configuration skips verification. *)
Lemma Load_always (source : dnsSource) (specification : string) :
  let s := Load source specification in
  In (protocol s) validProtocols /\
  network s = (if String.eqb "tcp-tls" (protocol s) then "tcp" else protocol s) /\
  port s <> 0%N /\
  tlsConfig s = Some {| InsecureSkipVerify := true |}.
Proof.
  unfold Load.
  assert (Hv : forall x, snd (splitProtocol specification) = x ->
                x = "" \/ In x validProtocols).
  { intros x <-. unfold splitProtocol.
    destruct (Contains specification protoDelimiter); [|left; reflexivity].
    cbv zeta.
    destruct (StringIn (ToLower (nth 1 (Split specification "/") "")) validProtocols) eqn:E.
    - apply StringIn_In in E.
      destruct (1 <? length (Split specification "/"))%nat;
        [right; exact E | left; reflexivity].
    - rewrite andb_false_r. left. reflexivity. }
  destruct (splitProtocol specification) as [spec1 proto1].
  destruct (splitPort spec1) as [d1 p1]. cbv zeta.
  cbn [protocol network port tlsConfig].
  specialize (Hv proto1 eq_refl).
  split; [|split; [reflexivity|split; [|reflexivity]]].
  - destruct Hv as [-> | Hv]; [left; reflexivity|].
    simpl in Hv. destruct Hv as [<-|[<-|[<-|[]]]]; simpl; auto.
  - destruct (N.eqb p1 0) eqn:E.
    + destruct (String.eqb "tcp-tls" _); discriminate.
    + apply N.eqb_neq in E. exact E.
Qed.

(** Claim C9.  A specification host[:port][/proto] whose proto is udp,
    tcp or tcp-tls in any letter case loads with that protocol
    lower-cased, and with udp when there is no proto; a port that is
    missing, does not parse (or is 0) becomes 53, or 853 for tcp-tls,
    and a port that parses is kept; the network is the protocol, with
    tcp for tcp-tls; the TLS configuration has InsecureSkipVerify set,
    and a connection of a tcp-tls source is the dialled tcp connection
    wrapped in a TLS client with that configuration. *)
Theorem Load_specification (source : dnsSource) (host : string)
    (p proto : option string) :
  noDelim host ->
  (forall x, p = Some x -> noDelim x) ->
  (forall x, proto = Some x -> StringIn (ToLower x) validProtocols = true) ->
  let s := Load source (mkSpec host p proto) in
  dnsServer s = host /\
  In (protocol s) validProtocols /\
  protocol s = match proto with Some x => ToLower x | None => "udp" end /\
  port s = match portOf p with
           | Some n => n
           | None => if String.eqb "tcp-tls" (protocol s) then 853%N else 53%N
           end /\
  network s = (if String.eqb "tcp-tls" (protocol s) then "tcp" else protocol s) /\
  tlsConfig s = Some {| InsecureSkipVerify := true |} /\
  (forall conn,
      Dial (dialer s) (network s) (remoteAddress s) = Some conn ->
      connect s = Some (if String.eqb "tcp-tls" (protocol s)
                        then TLSClient conn (Some {| InsecureSkipVerify := true |})
                        else conn)).
Proof.
  intros Hh Hp Hproto s.
  pose proof (Load_always source (mkSpec host p proto)) as (Hin & Hnet & _ & Htls).
  fold s in Hin, Hnet, Htls.
  assert (Hs := Load_mkSpec source host p proto Hh Hp Hproto). fold s in Hs.
  cbv zeta in Hs. clearbody s.
  assert (Hprot : protocol s = match proto with Some x => ToLower x | None => "udp" end)
    by (rewrite Hs; reflexivity).
  repeat split; try assumption.
  - rewrite Hs. reflexivity.
  - rewrite Hprot. rewrite Hs. reflexivity.
  - intros conn Hd. unfold connect. rewrite Hd, Htls.
    rewrite (String.eqb_sym (protocol s)).
    destruct (String.eqb "tcp-tls" (protocol s)); reflexivity.
Qed.

End Load.

(** The claim at 8.8.8.8:dns/TCP-TLS, whose port does not parse: the
    source talks tcp-tls over tcp to port 853. *)
Lemma Load_specification_witness :
  let s := Load (D := exampleDeps) zeroSource "8.8.8.8:dns/TCP-TLS" in
  protocol s = "tcp-tls" /\ port s = 853%N /\ network s = "tcp" /\
  remoteAddress s = "8.8.8.8:853" /\
  connect (D := exampleDeps) s =
    Some (TLSClient (RawConn "tcp" "8.8.8.8:853")
                    (Some {| InsecureSkipVerify := true |})).
Proof.
  pose proof (Load_specification (D := exampleDeps) zeroSource "8.8.8.8"
                (Some "dns") (Some "TCP-TLS")) as H.
  assert (H1 : noDelim "8.8.8.8") by (split; reflexivity).
  assert (H2 : forall x, Some "dns" = Some x -> noDelim x)
    by (intros x [= <-]; split; reflexivity).
  assert (H3 : forall x, Some "TCP-TLS" = Some x ->
                         StringIn (ToLower x) validProtocols = true)
    by (intros x [= <-]; reflexivity).
  specialize (H H1 H2 H3).
  change (mkSpec "8.8.8.8" (Some "dns") (Some "TCP-TLS")) with "8.8.8.8:dns/TCP-TLS" in H.
  cbv zeta in H. destruct H as (_ & _ & Hp & Hport & Hnet & _ & Hc).
  exact (conj Hp (conj Hport (conj Hnet (conj eq_refl
           (Hc (RawConn "tcp" "8.8.8.8:853") eq_refl))))).
Defined.

End LoadFacts.

(* --------------------------------------------------------------------- *)
(** ** The DNS source: backoff and the worker pool                        *)
(* --------------------------------------------------------------------- *)

Module SourceFacts.
Import Util UtilFacts Dns Resolver.

Section Source.
Context `{D : Deps}.

Lemma wrapInt_small (z : Z) :
  (- 2 ^ 63 <= z < 2 ^ 63)%Z -> wrapInt z = z.
Proof.
  intros H. unfold wrapInt. rewrite Z.mod_small; lia.
Qed.

(** A call during the backoff changes nothing and returns (nil, nil). *)
Lemma Answer_asleep (source : dnsSource) (b : Time) context request env :
  backoffTime source = Some b -> (now env < b)%Z ->
  Answer source context request env =
  {| sourceAfter := source; contextAfter := context; events := [];
     returned := Returns (None, None) |}.
Proof.
  intros Hb Hlt. unfold Answer. rewrite Hb.
  apply Z.ltb_lt in Hlt. rewrite Hlt. reflexivity.
Qed.

(** A call that returns an error leaves the backoff at the instant of
    the error plus the interval. *)
Lemma Answer_error_backoff (source : dnsSource) context request env r e :
  returned (Answer source context request env) = Returns (r, Some e) ->
  backoffTime (sourceAfter (Answer source context request env)) =
    Some (errNow env + backoffInterval)%Z /\
  questionChan (sourceAfter (Answer source context request env)) =
    questionChan source.
Proof.
  unfold Answer.
  destruct (match backoffTime source with Some b => (now env <? b)%Z | None => false end);
    [simpl; congruence|].
  destruct request as [req|]; [|simpl; congruence].
  destruct (negb (RecursionDesired req)); [simpl; congruence|].
  unfold increaseWorkers, query.
  destruct (_ || _)%bool; simpl;
    (destruct (questionChan source) eqn:Hq; simpl;
     [destruct (reply env) as [[[er|] resp]|]; simpl; intros; try congruence; auto
     | intros; auto]).
Qed.

(** The worker count after [increaseWorkers]. *)
Lemma increaseWorkers_workers (source : dnsSource) :
  (0 <= workers source <= maxWorkers + 1)%Z ->
  workers (fst (increaseWorkers source)) =
    (if (workers source <=? minWorkers)%Z ||
        ((workers source <=? maxWorkers)%Z &&
         (requestBuffer / 2 <? lenQuestionChan source)%Z)
     then workers source + 1 else workers source)%Z.
Proof.
  intros H. unfold increaseWorkers.
  destruct (_ || _)%bool; simpl; [|reflexivity].
  apply wrapInt_small. unfold maxWorkers in H. lia.
Qed.

Lemma increaseWorkers_bounds (source : dnsSource) :
  (0 <= workers source <= maxWorkers + 1)%Z ->
  (0 <= workers (fst (increaseWorkers source)) <= maxWorkers + 1)%Z.
Proof.
  intros H. rewrite (increaseWorkers_workers source H).
  destruct (workers source <=? minWorkers)%Z eqn:E1; simpl.
  - apply Z.leb_le in E1. unfold minWorkers, maxWorkers in *. lia.
  - destruct (workers source <=? maxWorkers)%Z eqn:E2; simpl; [|lia].
    apply Z.leb_le in E2.
    destruct (requestBuffer / 2 <? lenQuestionChan source)%Z; lia.
Qed.

(** The worker count after [Answer] is the count before, or the count
    after [increaseWorkers]. *)
Lemma Answer_workers (source : dnsSource) context request env :
  workers (sourceAfter (Answer source context request env)) = workers source \/
  workers (sourceAfter (Answer source context request env)) =
    workers (fst (increaseWorkers source)).
Proof.
  unfold Answer.
  destruct (match backoffTime source with Some b => (now env <? b)%Z | None => false end);
    [left; reflexivity|].
  destruct request as [req|]; [|left; reflexivity].
  destruct (negb (RecursionDesired req)); [left; reflexivity|].
  right. unfold increaseWorkers, query, lenQuestionChan. simpl.
  destruct (_ || _)%bool; simpl;
    (destruct (questionChan source);
     [destruct (reply env) as [[[er|] resp]|]; reflexivity | reflexivity]).
Qed.

Lemma step_bounds (s s' : dnsSource) :
  step s s' ->
  (0 <= workers s <= maxWorkers + 1)%Z ->
  (0 <= workers s' <= maxWorkers + 1)%Z.
Proof.
  intros Hstep H. destruct Hstep as [source context request env | source q q' Hq Hlen].
  - destruct (Answer_workers source context request env) as [-> | ->];
      [assumption | apply increaseWorkers_bounds; assumption].
  - exact H.
Qed.

(** What the pool does guarantee: a loaded source holds between 0 and
    [maxWorkers + 1] workers, whatever calls of [Answer] follow. *)
Lemma reachable_bounds (source : dnsSource) (specification : string) (s : dnsSource) :
  reachable (Load source specification) s ->
  (0 <= workers s <= maxWorkers + 1)%Z.
Proof.
  induction 1 as [|s s' _ IH Hstep].
  - unfold Load. destruct (splitProtocol _), (splitPort _). simpl.
    unfold maxWorkers. lia.
  - exact (step_bounds s s' Hstep IH).
Qed.

(** A call outside the backoff with recursion desired on an open source
    submits the request, after the pressure controller. *)
Lemma Answer_forwards (source : dnsSource) context (req : Msg) env :
  match backoffTime source with Some b => (b <= now env)%Z | None => True end ->
  RecursionDesired req = true ->
  questionChan source <> None ->
  let a := Answer source context (Some req) env in
  In (EvSubmit req) (events a) /\
  (match reply env with Some rep => err rep = None | None => True end ->
   backoffTime (sourceAfter a) = None).
Proof.
  intros Hb Hrd Hq. unfold Answer.
  assert (Hawake : match backoffTime source with
                   | Some b => (now env <? b)%Z | None => false end = false).
  { destruct (backoffTime source) as [b|]; [apply Z.ltb_ge; exact Hb | reflexivity]. }
  rewrite Hawake, Hrd. simpl negb. cbv iota.
  unfold increaseWorkers, query.
  destruct (_ || _)%bool; simpl;
    (destruct (questionChan source) as [q|]; [|congruence]);
    (destruct (reply env) as [[[er|] resp]|]; simpl;
     (split; [rewrite ?in_app_iff; simpl; auto | intros H; congruence || reflexivity])).
Qed.

(** Claim C7.  When a call of [Answer] returns an error, every call that
    follows while the clock is less than 500 ms past the instant of the
    error returns (nil, nil), submits nothing and spawns no worker, and
    leaves the source as it is; a call at 500 ms or later with recursion
    desired submits its request again (the source not being closed), and
    leaves no backoff unless its own reply is an error. *)
Theorem Answer_backoff (source : dnsSource) context request env r e :
  returned (Answer source context request env) = Returns (r, Some e) ->
  let s1 := sourceAfter (Answer source context request env) in
  let wake := (errNow env + 500 * Millisecond)%Z in
  (forall calls,
      Forall (fun c => (now (callEnv c) < wake)%Z) calls ->
      fst (run s1 calls) = s1 /\
      Forall2 (fun c a =>
                 a = {| sourceAfter := s1; contextAfter := callContext c;
                        events := []; returned := Returns (None, None) |})
              calls (snd (run s1 calls))) /\
  (forall context' req' env',
      (wake <= now env')%Z ->
      RecursionDesired req' = true ->
      questionChan source <> None ->
      let a := Answer s1 context' (Some req') env' in
      In (EvSubmit req') (events a) /\
      (match reply env' with Some rep => err rep = None | None => True end ->
       backoffTime (sourceAfter a) = None)).
Proof.
  intros Herr s1 wake.
  destruct (Answer_error_backoff source context request env r e Herr) as [Hb Hq].
  fold s1 in Hb, Hq. change (errNow env + backoffInterval)%Z with wake in Hb.
  clearbody s1. split.
  - induction 1 as [|c calls Hc _ IH]; simpl; [split; [reflexivity | constructor]|].
    rewrite (Answer_asleep s1 wake _ _ _ Hb Hc). simpl.
    destruct (run s1 calls) as [s' results]. simpl in *.
    destruct IH as [-> IH]. split; [reflexivity|].
    constructor; [reflexivity | exact IH].
  - intros context' req' env' Hwake Hrd Hopen.
    apply Answer_forwards; [rewrite Hb; exact Hwake | exact Hrd | congruence].
Qed.

(** Claim C8, where the code leaves it: from a freshly loaded source,
    calls of [Answer] that find more than half of the request buffer
    pending bring the worker count to 26, one more than [maxWorkers];
    the test of [increaseWorkers] lets a pool of exactly [maxWorkers]
    workers grow. *)
Theorem workers_exceed_maxWorkers (specification : string) :
  exists s : dnsSource,
    reachable (Load zeroSource specification) s /\
    workers s = 26%Z /\ (maxWorkers < workers s)%Z.
Proof.
  set (m := {| Id := 0; Response := false; Opcode := 0; RecursionDesired := true;
               CheckingDisabled := false; Rcode := 0; Questions := [];
               Dns.Answer := [] |}).
  set (env := {| now := 0%Z;
                 reply := Some {| err := None; response := None |};
                 errNow := 0%Z |}).
  assert (H : forall n : nat, (n <= 26)%nat ->
    exists s, reachable (Load zeroSource specification) s /\
              workers s = Z.of_nat n /\
              questionChan s = Some (repeat m 51) /\
              backoffTime s = None).
  { induction n as [|n IH]; intros Hn.
    - exists (setQuestionChan (Load zeroSource specification) (Some (repeat m 51))).
      split; [|unfold Load; destruct (splitProtocol _), (splitPort _); auto].
      eapply reach_step; [apply reach_refl|].
      apply (step_buffer _ []).
      + unfold Load. destruct (splitProtocol _), (splitPort _). reflexivity.
      + rewrite repeat_length. unfold requestBuffer. lia.
    - destruct IH as (s & Hr & Hw & Hq & Hb); [lia|].
      exists (sourceAfter (Answer s None (Some m) env)). split.
      + eapply reach_step; [exact Hr | apply step_answer].
      + unfold Answer. rewrite Hb. simpl negb. cbv iota.
        unfold increaseWorkers, lenQuestionChan, query. simpl.
        rewrite Hq, repeat_length.
        assert (Hgrow : ((workers s <=? minWorkers)%Z ||
                         ((workers s <=? maxWorkers)%Z &&
                          (requestBuffer / 2 <? Z.of_nat 51)%Z))%bool = true).
        { apply orb_true_iff. right. apply andb_true_iff. split.
          - apply Z.leb_le. unfold maxWorkers. lia.
          - reflexivity. }
        rewrite Hgrow. simpl. rewrite Hq. simpl.
        repeat split; [|exact Hq].
        rewrite wrapInt_small; lia. }
  destruct (H 26%nat (le_n _)) as (s & Hr & Hw & _).
  exists s. repeat split; [exact Hr | exact Hw |].
  rewrite Hw. unfold maxWorkers. lia.
Qed.


End Source.

(** The backoff at 8.8.8.8 after a timeout at 1000 ns: a call at 400 ms is
    turned away, a call at 600 ms is submitted. *)
Lemma Answer_backoff_witness :
  let source := Load (D := exampleDeps) zeroSource "8.8.8.8" in
  let req := {| Id := 7; Response := false; Opcode := 0; RecursionDesired := true;
                CheckingDisabled := false; Rcode := 0; Questions := [];
                Dns.Answer := [] |} in
  let failing := {| now := 0%Z;
                    reply := Some {| err := Some "i/o timeout"; response := None |};
                    errNow := 1000%Z |} in
  let at_ms (t : Z) := {| now := (t * Millisecond)%Z;
                          reply := Some {| err := None; response := Some req |};
                          errNow := (t * Millisecond)%Z |} in
  let a := Answer (D := exampleDeps) source None (Some req) failing in
  returned a = Returns (None, Some "i/o timeout") /\
  snd (run (D := exampleDeps) (sourceAfter a)
           [{| callContext := None; callRequest := Some req; callEnv := at_ms 400%Z |}]) =
    [{| sourceAfter := sourceAfter a; contextAfter := None; events := [];
        returned := Returns (None, None) |}] /\
  In (EvSubmit req)
     (events (Answer (D := exampleDeps) (sourceAfter a) None (Some req) (at_ms 600%Z))).
Proof.
  intros source req failing at_ms a.
  assert (Herr : returned a = Returns (None, Some "i/o timeout")) by reflexivity.
  pose proof (Answer_backoff (D := exampleDeps) source None (Some req) failing
                None "i/o timeout" Herr) as H.
  cbv zeta in H. destruct H as [Hquiet Hwake].
  split; [exact Herr|]. split.
  - destruct (Hquiet [{| callContext := None; callRequest := Some req;
                         callEnv := at_ms 400%Z |}]) as [_ H2].
    + constructor; [vm_compute; reflexivity | constructor].
    + inversion H2 as [|c r0 l l' Hr Hl]; subst. inversion Hl; subst. reflexivity.
  - apply (Hwake None req (at_ms 600%Z)).
    + vm_compute. discriminate.
    + reflexivity.
    + discriminate.
Defined.



End SourceFacts.

(* --------------------------------------------------------------------- *)
(** ** The rule store                                                     *)
(* --------------------------------------------------------------------- *)

Module RuleFacts.
Import Util UtilFacts Rule.

Section Store.
Context `{D : Deps}.

Lemma gatherLists_spec (store : bloomStore) (gs : list string)
    (al bl : list GudgeonList) :
  gatherLists store gs al bl =
  ((al ++ allowListsOf store gs)%list, (bl ++ blockListsOf store gs)%list).
Proof.
  revert al bl. induction gs as [|g gs IH]; intros al bl; simpl.
  - rewrite !app_nil_r. reflexivity.
  - rewrite IH. unfold allowListsOf, blockListsOf. simpl.
    destruct (groupAllowMap store !! g), (groupBlockMap store !! g); simpl;
      rewrite <- ?app_assoc; reflexivity.
Qed.

Lemma anyCandidate_Some (store : bloomStore) (f : BloomFilter)
    (l : GudgeonList) (ds : list string) :
  anyCandidate store (Some f) l ds = Ret (existsb (candidateHits store f l) ds).
Proof.
  induction ds as [|c ds IH]; simpl; [reflexivity|].
  destruct (candidateHits store f l c); [reflexivity | exact IH].
Qed.

Lemma anyList_spec (store : bloomStore) (ls : list GudgeonList) (ds : list string) :
  (forall l, In l ls -> is_Some (bloomFilters store !! CanonicalName l)) ->
  anyList store ls ds = Ret (existsb (listHits store ds) ls).
Proof.
  induction ls as [|l ls IH]; intros Hf; simpl; [reflexivity|].
  destruct (Hf l (or_introl eq_refl)) as [f Hl].
  unfold listHits at 1. rewrite Hl, anyCandidate_Some.
  destruct (existsb (candidateHits store f l) ds); [reflexivity|].
  apply IH. intros l' Hl'. apply Hf. right. exact Hl'.
Qed.

Lemma wf_allowLists (store : bloomStore) (gs : list string) (l : GudgeonList) :
  wf store -> In l (allowListsOf store gs) ->
  is_Some (bloomFilters store !! CanonicalName l).
Proof.
  intros Hwf Hin. unfold allowListsOf in Hin. apply in_flat_map in Hin as (g & _ & Hl).
  destruct (groupAllowMap store !! g) as [ls|] eqn:Hg; [|contradiction].
  exact (Hwf (groupAllowMap store) g ls l (or_introl eq_refl) Hg Hl).
Qed.

Lemma wf_blockLists (store : bloomStore) (gs : list string) (l : GudgeonList) :
  wf store -> In l (blockListsOf store gs) ->
  is_Some (bloomFilters store !! CanonicalName l).
Proof.
  intros Hwf Hin. unfold blockListsOf in Hin. apply in_flat_map in Hin as (g & _ & Hl).
  destruct (groupBlockMap store !! g) as [ls|] eqn:Hg; [|contradiction].
  exact (Hwf (groupBlockMap store) g ls l (or_intror eq_refl) Hg Hl).
Qed.

(** The lookup on a store whose lists all have their filter. *)
Lemma IsMatchAny_wf (store : bloomStore) (gs : list string) (d : string) :
  wf store -> IsMatchAny store gs d = Ret (IsMatchAny_spec store gs d).
Proof.
  intros Hwf. unfold IsMatchAny, IsMatchAny_spec.
  rewrite gatherLists_spec. simpl.
  rewrite (anyList_spec store (allowListsOf store gs));
    [|intros l; apply wf_allowLists; exact Hwf].
  destruct (existsb _ (allowListsOf store gs)); [reflexivity|].
  rewrite (anyList_spec store (blockListsOf store gs));
    [|intros l; apply wf_blockLists; exact Hwf].
  destruct (existsb _ (blockListsOf store gs)); reflexivity.
Qed.

Lemma listHits_hits (store : bloomStore) (ds : list string) (l : GudgeonList) :
  listHits store ds l = true <-> exists c, In c ds /\ hits store l c.
Proof.
  unfold listHits, hits. split.
  - destruct (bloomFilters store !! CanonicalName l) as [f|]; [|discriminate].
    intros H. apply existsb_exists in H as (c & Hc & Hh). eauto.
  - intros (c & Hc & f & Hf & Hh). rewrite Hf.
    apply existsb_exists. eauto.
Qed.

(** The zero store has no list, and [Load] gives the list it adds its
    filter. *)
Lemma wf_emptyStore : wf emptyStore.
Proof.
  intros m g ls l [-> | ->] Hm; simpl in Hm; rewrite lookup_empty in Hm; discriminate.
Qed.

Lemma wf_Load (store : bloomStore) (group : string) (rules : list Rule)
    (cfg : option GudgeonConfig) (lst : GudgeonList) :
  wf store -> wf (fst (Load store group rules cfg lst)).
Proof.
  intros Hwf. unfold Load.
  destruct (loadRules _ rules 0%N) as [filter' counter]. simpl.
  set (allow := isAllow (ParseType (Type_ lst))).
  assert (Hnew : forall (cur : gmap string (list GudgeonList)) g ls l,
    (cur = groupAllowMap store \/ cur = groupBlockMap store) ->
    <[group := if inMap (default [] (cur !! group)) lst
               then default [] (cur !! group)
               else (default [] (cur !! group) ++ [lst])%list]> cur !! g = Some ls ->
    In l ls ->
    is_Some (<[CanonicalName lst := filter']> (bloomFilters store) !! CanonicalName l)).
  { intros cur g ls l Hcur Hg Hl.
    assert (Hold : forall ls0, cur !! g = Some ls0 -> In l ls0 ->
      is_Some (<[CanonicalName lst := filter']> (bloomFilters store) !! CanonicalName l)).
    { intros ls0 H0 Hl0. apply lookup_insert_is_Some'. right.
      exact (Hwf cur g ls0 l Hcur H0 Hl0). }
    destruct (decide (group = g)) as [<- | Hne].
    - rewrite lookup_insert_eq in Hg. injection Hg as <-.
      assert (Hcases : In l (default [] (cur !! group)) \/ l = lst).
      { destruct (inMap _ lst); [left; exact Hl|].
        apply in_app_or in Hl as [Hl | [<- | []]]; auto. }
      destruct Hcases as [Hl0 | ->].
      + destruct (cur !! group) as [ls0|] eqn:E; [|contradiction].
        exact (Hold ls0 eq_refl Hl0).
      + rewrite lookup_insert_eq. eauto.
    - rewrite lookup_insert_ne in Hg by exact Hne. exact (Hold ls Hg Hl). }
  intros m g ls l Hm Hg Hl. simpl in *.
  assert (Hkeep : forall cur, (cur = groupAllowMap store \/ cur = groupBlockMap store) ->
    cur !! g = Some ls ->
    is_Some (<[CanonicalName lst := filter']> (bloomFilters store) !! CanonicalName l)).
  { intros cur Hcur H0. apply lookup_insert_is_Some'. right.
    exact (Hwf cur g ls l Hcur H0 Hl). }
  destruct allow; destruct Hm as [-> | ->];
    solve [ eapply Hnew; [| exact Hg | exact Hl]; auto
          | eapply Hkeep; [| exact Hg]; auto ].
Qed.

(** Claim C2.  On a store whose lists all have their filter,
    [IsMatchAny] is the lookup of the specification: Allow when a
    candidate of the fan-out hits an allow list of one of the groups,
    whatever the block lists say; else Block when a candidate hits a
    block list of one of the groups; else None. *)
Theorem IsMatchAny_allow_first (store : bloomStore) (gs : list string) (d : string) :
  wf store ->
  let allowHit := exists l c, In l (allowListsOf store gs) /\
                              In c (DomainList d) /\ hits store l c in
  let blockHit := exists l c, In l (blockListsOf store gs) /\
                              In c (DomainList d) /\ hits store l c in
  IsMatchAny store gs d = Ret (IsMatchAny_spec store gs d) /\
  (allowHit -> IsMatchAny store gs d = Ret MatchAllow) /\
  (~ allowHit -> blockHit -> IsMatchAny store gs d = Ret MatchBlock) /\
  (~ allowHit -> ~ blockHit -> IsMatchAny store gs d = Ret MatchNone).
Proof.
  intros Hwf allowHit blockHit.
  assert (Hex : forall ls,
    existsb (listHits store (DomainList d)) ls = true <->
    exists l c, In l ls /\ In c (DomainList d) /\ hits store l c).
  { intros ls. rewrite existsb_exists. split.
    - intros (l & Hl & Hh). apply listHits_hits in Hh as (c & Hc & Hh). eauto.
    - intros (l & c & Hl & Hc & Hh). exists l. split; [exact Hl|].
      apply listHits_hits. eauto. }
  rewrite (IsMatchAny_wf store gs d Hwf). unfold IsMatchAny_spec.
  pose proof (Hex (allowListsOf store gs)) as Ha.
  pose proof (Hex (blockListsOf store gs)) as Hb.
  fold allowHit in Ha. fold blockHit in Hb.
  destruct (existsb _ (allowListsOf store gs)).
  - repeat split; try reflexivity; intros Hn; exfalso; apply Hn, Ha; reflexivity.
  - destruct (existsb _ (blockListsOf store gs)).
    + repeat split; try reflexivity.
      * intros H. apply Ha in H. discriminate.
      * intros _ Hn. exfalso. apply Hn, Hb. reflexivity.
    + repeat split; try reflexivity.
      * intros H. apply Ha in H. discriminate.
      * intros _ H. apply Hb in H. discriminate.
Qed.

(** The scanner loop does not tell two spellings that fold together
    apart. *)
Lemma scanLines_fold (t1 t2 : string) (ls : list string) :
  EqualFold t1 t2 = true -> scanLines t1 ls = scanLines t2 ls.
Proof.
  intros H. induction ls as [|line ls IH]; simpl; [reflexivity|].
  rewrite IH, (EqualFold_trans_l t1 t2 _ H). reflexivity.
Qed.

Lemma isInListFile_fold (t1 t2 : string) (cfg : GudgeonConfig) (lst : GudgeonList) :
  EqualFold t1 t2 = true -> isInListFile t1 cfg lst = isInListFile t2 cfg lst.
Proof.
  intros H. unfold isInListFile.
  destruct (String.eqb "" (PathToList cfg lst)); [reflexivity|].
  destruct (Open (PathToList cfg lst)) as [f|]; [|reflexivity].
  rewrite (scanLines_fold t1 t2 _ H). reflexivity.
Qed.

Lemma anyCandidate_alike (store : bloomStore) (l : GudgeonList) (ds1 ds2 : list string) :
  Forall2 (alike store) ds1 ds2 ->
  anyCandidate store (bloomFilters store !! CanonicalName l) l ds1 =
  anyCandidate store (bloomFilters store !! CanonicalName l) l ds2.
Proof.
  induction 1 as [|c1 c2 ds1 ds2 [Hfold Htest] _ IH]; simpl; [reflexivity|].
  destruct (bloomFilters store !! CanonicalName l) as [f|] eqn:Hf; [|reflexivity].
  unfold candidateHits. rewrite (Htest _ f Hf).
  destruct (conf store) as [cfg|].
  - rewrite (isInListFile_fold c1 c2 cfg l Hfold), IH. reflexivity.
  - rewrite IH. reflexivity.
Qed.

Lemma anyList_alike (store : bloomStore) (ls : list GudgeonList) (ds1 ds2 : list string) :
  Forall2 (alike store) ds1 ds2 ->
  anyList store ls ds1 = anyList store ls ds2.
Proof.
  intros H. induction ls as [|l ls IH]; simpl; [reflexivity|].
  rewrite (anyCandidate_alike store l ds1 ds2 H), IH. reflexivity.
Qed.

(** Claim C5, as the code has it.  The confirm pass compares with
    [EqualFold]; the filter is asked about the candidates as they are
    given.  So two spellings of a name get the same answer when their
    candidates fold together pairwise and every filter of the store
    answers alike on them. *)
Theorem IsMatchAny_fold (store : bloomStore) (gs : list string) (d1 d2 : string) :
  Forall2 (alike store) (DomainList d1) (DomainList d2) ->
  IsMatchAny store gs d1 = IsMatchAny store gs d2.
Proof.
  intros H. unfold IsMatchAny.
  destruct (gatherLists store gs [] []) as [al bl].
  rewrite (anyList_alike store al _ _ H), (anyList_alike store bl _ _ H).
  reflexivity.
Qed.

(** The scanner loop finds a candidate when one of the lines matches
    it. *)
Lemma scanLines_existsb (text : string) (ls : list string) :
  scanLines text ls = existsb (lineMatches text) ls.
Proof.
  induction ls as [|line ls IH]; [reflexivity|].
  simpl. unfold lineMatches at 1. rewrite IH.
  destruct (HasPrefix line comment || HasPrefix line altComment); simpl;
    [reflexivity|].
  destruct (EqualFold text (dropLeading line)); reflexivity.
Qed.

(** [isInListFile] by the outcomes on the file system; the read error
    of the scanner changes nothing. *)
Lemma isInListFile_confirms (text : string) (cfg : GudgeonConfig) (lst : GudgeonList) :
  isInListFile text cfg lst = confirms cfg lst text.
Proof.
  unfold isInListFile, confirms.
  destruct (String.eqb "" (PathToList cfg lst)); [reflexivity|].
  destruct (Open (PathToList cfg lst)) as [f|]; [|reflexivity].
  simpl. rewrite scanLines_existsb.
  destruct (existsb (lineMatches text) (lines f)), (scanErr f); reflexivity.
Qed.

Lemma listHits_confirmed (store : bloomStore) (cfg : GudgeonConfig)
    (ds : list string) (l : GudgeonList) :
  conf store = Some cfg ->
  listHits store ds l = confirmedHit store cfg ds l.
Proof.
  intros Hc. unfold listHits, confirmedHit.
  destruct (bloomFilters store !! CanonicalName l) as [f|]; [|reflexivity].
  induction ds as [|c ds IH]; [reflexivity|].
  simpl. rewrite IH. unfold candidateHits. rewrite Hc, isInListFile_confirms.
  reflexivity.
Qed.

Lemma anyCandidate_unopened (store : bloomStore) (cfg : GudgeonConfig)
    (fo : option BloomFilter) (l : GudgeonList) (ds : list string) :
  conf store = Some cfg ->
  Open (PathToList cfg l) = None ->
  anyCandidate store fo l ds = anyCandidate (setConf store None) fo l ds.
Proof.
  intros Hc Ho. induction ds as [|c ds IH]; simpl; [reflexivity|].
  destruct fo as [f|]; [|reflexivity].
  unfold candidateHits. simpl. rewrite Hc, isInListFile_confirms.
  unfold confirms. rewrite Ho, orb_true_r, IH. reflexivity.
Qed.

Lemma anyList_unopened (store : bloomStore) (cfg : GudgeonConfig)
    (ls : list GudgeonList) (ds : list string) :
  conf store = Some cfg ->
  (forall l, In l ls -> Open (PathToList cfg l) = None) ->
  anyList store ls ds = anyList (setConf store None) ls ds.
Proof.
  intros Hc Ho. induction ls as [|l ls IH]; simpl; [reflexivity|].
  rewrite (anyCandidate_unopened store cfg _ l ds Hc (Ho l (or_introl eq_refl))), IH;
    [reflexivity|].
  intros l' Hl'. apply Ho. right. exact Hl'.
Qed.

Lemma existsb_none {A : Type} (p : A -> bool) (ls : list A) :
  (forall x, In x ls -> p x = false) -> existsb p ls = false.
Proof.
  intros H. induction ls as [|x ls IH]; [reflexivity|].
  simpl. rewrite (H x (or_introl eq_refl)), IH; [reflexivity|].
  intros y Hy. apply H. right. exact Hy.
Qed.

(** Claim C4, as the code has it.  For a store with a configuration, on
    ASCII names and files: the lookup reports the first kind of list,
    allow before block, with a list whose filter tests positive on a
    candidate that the confirm pass confirms.  A list without a path and
    a file that does not open confirm every candidate, so the answer of
    the filter stands: with a list of the groups whose file does not
    open and whose filter holds a candidate, the lookup is Allow or
    Block, never None, and when no file of the lists of the groups opens
    the lookup is the one of the store without a configuration.  A file
    that opens confirms the candidates that one of its scanned lines
    matches, read error or not: when every list of the groups has a file
    that opens and none of its scanned lines matches a candidate, the
    lookup is None whatever the filters hold. *)
Theorem IsMatchAny_io_errors (store : bloomStore) (cfg : GudgeonConfig)
    (gs : list string) (d : string) :
  wf store ->
  conf store = Some cfg ->
  asciiLookup cfg (allowListsOf store gs ++ blockListsOf store gs)%list d ->
  let lists := (allowListsOf store gs ++ blockListsOf store gs)%list in
  IsMatchAny store gs d = Ret (IsMatchAny_confirmed store cfg gs d) /\
  (forall l f c,
      In l lists -> bloomFilters store !! CanonicalName l = Some f ->
      In c (DomainList d) -> TestString f c = true ->
      Open (PathToList cfg l) = None ->
      IsMatchAny store gs d <> Ret MatchNone) /\
  ((forall l, In l lists -> Open (PathToList cfg l) = None) ->
   IsMatchAny store gs d = IsMatchAny (setConf store None) gs d) /\
  ((forall l, In l lists ->
      PathToList cfg l <> "" /\
      exists f, Open (PathToList cfg l) = Some f /\
                forall c line, In c (DomainList d) -> In line (lines f) ->
                               lineMatches c line = false) ->
   IsMatchAny store gs d = Ret MatchNone).
Proof.
  intros Hwf Hc _ lists.
  assert (Heq : IsMatchAny store gs d = Ret (IsMatchAny_confirmed store cfg gs d)).
  { rewrite (IsMatchAny_wf store gs d Hwf).
    unfold IsMatchAny_spec, IsMatchAny_confirmed.
    assert (He : forall ls,
      existsb (listHits store (DomainList d)) ls =
      existsb (confirmedHit store cfg (DomainList d)) ls).
    { intros ls. induction ls as [|l ls IH]; [reflexivity|].
      simpl. rewrite IH, (listHits_confirmed store cfg _ l Hc). reflexivity. }
    rewrite !He. reflexivity. }
  split; [exact Heq|]. split; [|split].
  - intros l f c Hl Hf Hin Ht Ho. rewrite Heq. unfold IsMatchAny_confirmed.
    assert (Hhit : confirmedHit store cfg (DomainList d) l = true).
    { unfold confirmedHit. rewrite Hf. apply existsb_exists. exists c.
      split; [exact Hin|]. unfold confirms. rewrite Ht, Ho, orb_true_r.
      reflexivity. }
    destruct (existsb _ (allowListsOf store gs)) eqn:Ea; [discriminate|].
    destruct (existsb _ (blockListsOf store gs)) eqn:Eb; [discriminate|].
    exfalso. apply in_app_or in Hl as [Hl | Hl].
    + assert (existsb (confirmedHit store cfg (DomainList d))
                      (allowListsOf store gs) = true)
        by (apply existsb_exists; eauto).
      congruence.
    + assert (existsb (confirmedHit store cfg (DomainList d))
                      (blockListsOf store gs) = true)
        by (apply existsb_exists; eauto).
      congruence.
  - intros Ho. unfold IsMatchAny.
    rewrite !gatherLists_spec.
    change (allowListsOf (setConf store None) gs) with (allowListsOf store gs).
    change (blockListsOf (setConf store None) gs) with (blockListsOf store gs).
    cbv iota beta.
    rewrite (anyList_unopened store cfg (_ ++ allowListsOf store gs)%list _ Hc),
            (anyList_unopened store cfg (_ ++ blockListsOf store gs)%list _ Hc).
    + reflexivity.
    + intros l Hl. apply Ho, in_or_app. right. exact Hl.
    + intros l Hl. apply Ho, in_or_app. left. exact Hl.
  - intros Hno. rewrite Heq. unfold IsMatchAny_confirmed.
    assert (Hmiss : forall l, In l lists ->
                              confirmedHit store cfg (DomainList d) l = false).
    { intros l Hl. destruct (Hno l Hl) as (Hp & f & Ho & Hlines).
      unfold confirmedHit.
      destruct (bloomFilters store !! CanonicalName l) as [flt|]; [|reflexivity].
      apply existsb_none. intros c Hin. unfold confirms. rewrite Ho.
      assert (Hpath : String.eqb "" (PathToList cfg l) = false).
      { destruct (String.eqb "" (PathToList cfg l)) eqn:E; [|reflexivity].
        apply String.eqb_eq in E. congruence. }
      rewrite Hpath. simpl.
      rewrite (existsb_none (lineMatches c) (lines f));
        [apply andb_false_r|].
      intros line Hline. exact (Hlines c line Hin Hline). }
    rewrite !existsb_none; [reflexivity| |].
    + intros l Hl. apply Hmiss, in_or_app. right. exact Hl.
    + intros l Hl. apply Hmiss, in_or_app. left. exact Hl.
Qed.

End Store.

(** The claim on the example store: an allowed name under a blocked one
    is allowed. *)
Lemma IsMatchAny_allow_first_witness :
  wf (exampleStore listFiles) /\
  IsMatchAny (D := exactDeps listFiles) (exampleStore listFiles)
             ["default"] "safe.ads.example" = Ret MatchAllow /\
  IsMatchAny (D := exactDeps listFiles) (exampleStore listFiles)
             ["default"] "x.ads.example" = Ret MatchBlock.
Proof.
  assert (Hwf : wf (exampleStore listFiles))
    by (apply wf_Load, wf_Load, wf_emptyStore).
  split; [exact Hwf|]. split.
  - pose proof (IsMatchAny_allow_first (D := exactDeps listFiles)
                  (exampleStore listFiles) ["default"] "safe.ads.example" Hwf) as H.
    cbv zeta in H. destruct H as [H _].
    eapply eq_trans; [exact H | vm_compute; reflexivity].
  - pose proof (IsMatchAny_allow_first (D := exactDeps listFiles)
                  (exampleStore listFiles) ["default"] "x.ads.example" Hwf) as H.
    cbv zeta in H. destruct H as [H _].
    eapply eq_trans; [exact H | vm_compute; reflexivity].
Defined.

(** Against claim C4: the file of the block list does not open, and the
    lookup of a name in its filter answers Block, not None. *)
Lemma IsMatchAny_open_error_blocks :
  @Open (exactDeps noFiles) (@PathToList (exactDeps noFiles) tt adsList) = None /\
  IsMatchAny (D := exactDeps noFiles) (exampleStore noFiles)
             ["default"] "ads.example" = Ret MatchBlock /\
  IsMatchAny (D := exactDeps noFiles) (exampleStore noFiles)
             ["default"] "ads.example" <> Ret MatchNone.
Proof.
  split; [reflexivity|]. split; [vm_compute; reflexivity|].
  vm_compute. discriminate.
Qed.

(** The amended claim where the file of the block list opens and no
    longer holds the name: the filter holds ads.example, no scanned line
    matches it, and the lookup answers None although the scanner ended
    on a read error; the filters alone answer Block. *)
Lemma IsMatchAny_io_errors_witness :
  IsMatchAny (D := exactDeps staleFiles) (exampleStore staleFiles)
             ["default"] "ads.example" = Ret MatchNone /\
  IsMatchAny (D := exactDeps staleFiles) (setConf (exampleStore staleFiles) None)
             ["default"] "ads.example" = Ret MatchBlock.
Proof.
  assert (Hwf : wf (exampleStore staleFiles))
    by (apply wf_Load, wf_Load, wf_emptyStore).
  assert (Hc : conf (exampleStore staleFiles) = Some tt) by reflexivity.
  assert (Ha : asciiLookup (D := exactDeps staleFiles) tt
                 (allowListsOf (exampleStore staleFiles) ["default"] ++
                  blockListsOf (exampleStore staleFiles) ["default"])%list
                 "ads.example").
  { split.
    - intros c Hin. vm_compute in Hin. destruct Hin as [<- | []]. reflexivity.
    - intros l f line Hl Ho Hin. vm_compute in Hl.
      destruct Hl as [<- | [<- | []]]; vm_compute in Ho; [discriminate|].
      injection Ho as <-. vm_compute in Hin.
      destruct Hin as [<- | [<- | []]]; reflexivity. }
  split; [|vm_compute; reflexivity].
  eapply eq_trans.
  - exact (proj1 (IsMatchAny_io_errors (D := exactDeps staleFiles)
                    (exampleStore staleFiles) tt ["default"] "ads.example"
                    Hwf Hc Ha)).
  - vm_compute. reflexivity.
Defined.

(** Against claim C5: the list holds foo.example, its file too, and the
    lookup blocks that spelling and lets FoO.ExAmple through. *)
Lemma IsMatchAny_case_sensitive :
  IsMatchAny (D := exactDeps listFiles) (exampleStore listFiles)
             ["default"] "foo.example" = Ret MatchBlock /\
  IsMatchAny (D := exactDeps listFiles) (exampleStore listFiles)
             ["default"] "FoO.ExAmple" = Ret MatchNone.
Proof.
  split; vm_compute; reflexivity.
Qed.

(** The amended claim on a store whose filter was given both
    spellings. *)
Lemma IsMatchAny_fold_witness :
  Forall2 (alike bothSpellings)
          (@DomainList (exactDeps listFiles) "FoO.ExAmple")
          (@DomainList (exactDeps listFiles) "foo.example") /\
  IsMatchAny (D := exactDeps listFiles) bothSpellings ["default"] "FoO.ExAmple" =
  IsMatchAny (D := exactDeps listFiles) bothSpellings ["default"] "foo.example".
Proof.
  assert (H : Forall2 (alike bothSpellings)
                (@DomainList (exactDeps listFiles) "FoO.ExAmple")
                (@DomainList (exactDeps listFiles) "foo.example")).
  { constructor; [|constructor]. split; [reflexivity|].
    intros name f Hf.
    change (bloomFilters bothSpellings)
      with (<["ads" := ["FoO.ExAmple"; "foo.example"]]>
              (∅ : gmap string (list string))) in Hf.
    apply lookup_insert_Some in Hf as [[_ <-] | [_ Hf]]; [reflexivity|].
    rewrite lookup_empty in Hf. discriminate. }
  split; [exact H|].
  exact (IsMatchAny_fold (D := exactDeps listFiles) bothSpellings ["default"]
           "FoO.ExAmple" "foo.example" H).
Defined.

End RuleFacts.

(* --------------------------------------------------------------------- *)
(** ** The engine: classification, groups and the request handler         *)
(* --------------------------------------------------------------------- *)

Module EngineFacts.
Import Util UtilFacts Dns Engine.

Section Engine.
Context `{D : Deps}.

(** One match entry, found nothing so far: the three tests in turn. *)
Lemma testMatch_None (c : consumer) (m : GudgeonMatch) (ip : IP) :
  testMatch c m ip None =
  if ipHit ip m || rangeHit ip m || netHit ip m then Some c else None.
Proof.
  unfold testMatch, ipHit, rangeHit, netHit.
  repeat (cbv beta iota zeta; cbn [negb andb orb];
          match goal with
          | |- context [String.eqb ?x ?y] => destruct (String.eqb x y)
          | |- context [ParseIP ?x] => destruct (ParseIP x)
          | |- context [ParseCIDR ?x] => destruct (ParseCIDR x)
          | |- context [Range ?x] => destruct (Range x)
          | |- context [Contains ?x ?y] => destruct (Contains x y)
          | |- context [isEq ?x] => destruct (isEq x)
          | |- context [isLt ?x] => destruct (isLt x)
          | |- context [isGt ?x] => destruct (isGt x)
          end);
    reflexivity.
Qed.

Lemma matchLoop_None (c : consumer) (ms : list GudgeonMatch) (ip : IP) :
  matchLoop c ms ip None =
  if existsb (fun m => ipHit ip m || rangeHit ip m || netHit ip m) ms
  then Some c else None.
Proof.
  induction ms as [|m ms IH]; simpl; [reflexivity|].
  rewrite testMatch_None.
  destruct (ipHit ip m || rangeHit ip m || netHit ip m); [reflexivity | exact IH].
Qed.

Lemma existsb_orb3 {A : Type} (f g h : A -> bool) (l : list A) :
  existsb (fun x => f x || g x || h x) l = existsb f l || existsb g l || existsb h l.
Proof.
  induction l as [|x l IH]; simpl; [reflexivity|].
  rewrite IH.
  destruct (f x), (g x), (h x), (existsb f l), (existsb g l), (existsb h l);
    reflexivity.
Qed.

(** The outer loop finds the first consumer, in the order of the list,
    one of whose entries matches. *)
Lemma consumerLoop_find (cs : list consumer) (ip : IP) :
  consumerLoop cs ip None =
  find (fun c => matchesBySpecificity ip (configConsumer c)) cs.
Proof.
  induction cs as [|c cs IH]; simpl; [reflexivity|].
  rewrite matchLoop_None, existsb_orb3.
  unfold matchesBySpecificity at 1.
  destruct (existsb (ipHit ip) _ || existsb (rangeHit ip) _ || existsb (netHit ip) _);
    [reflexivity | exact IH].
Qed.

(** The linking loop keeps the groups the consumer names, in the order
    of the engine's groups. *)
Lemma linkGroups_spec (gs : list group) (cc : GundgeonConsumer) (c : consumer) :
  linkGroups gs cc c =
  let kept := List.filter (fun g => StringIn (GroupName (configGroup g)) (Groups cc)) gs in
  {| configConsumer := configConsumer c;
     groups := (groups c ++ kept)%list;
     groupNames := (groupNames c ++ map (fun g => GroupName (configGroup g)) kept)%list |}.
Proof.
  revert c. induction gs as [|g gs IH]; intros c; simpl.
  - rewrite !app_nil_r. destruct c; reflexivity.
  - destruct (StringIn (GroupName (configGroup g)) (Groups cc)); [|apply IH].
    rewrite IH. simpl. rewrite <- !app_assoc. reflexivity.
Qed.

Lemma filter_map_names (p : string -> bool) (gs : list GudgeonGroup) :
  map (fun g => GroupName (configGroup g))
      (List.filter (fun g => p (GroupName (configGroup g)))
                   (map (fun cg => {| configGroup := cg |}) gs)) =
  List.filter p (map GroupName gs).
Proof.
  induction gs as [|g gs IH]; simpl; [reflexivity|].
  destruct (p (GroupName g)); simpl; rewrite IH; reflexivity.
Qed.

(** An active consumer of [New]: its configuration, and the names of its
    groups, as many as its groups. *)
Lemma newConsumers_spec (conf : GudgeonConfig) (c : consumer) :
  In c (newConsumers conf) ->
  In (configConsumer c) (Consumers conf) /\
  groupNames c = linkedNames conf (configConsumer c) /\
  length (groups c) = length (groupNames c).
Proof.
  unfold newConsumers. intros H. apply in_map_iff in H as (cc & <- & Hcc).
  rewrite linkGroups_spec. cbv zeta. simpl. split; [exact Hcc|]. split.
  - unfold linkedNames.
    exact (filter_map_names (fun g => StringIn g (Groups cc)) (workingGroups conf)).
  - rewrite length_map. reflexivity.
Qed.

Lemma newConsumers_configConsumer (conf : GudgeonConfig) :
  map configConsumer (newConsumers conf) = Consumers conf.
Proof.
  unfold newConsumers. rewrite map_map.
  erewrite map_ext; [apply map_id|].
  intros cc. rewrite linkGroups_spec. reflexivity.
Qed.

Lemma find_map_configConsumer (p : GundgeonConsumer -> bool) (cs : list consumer) :
  option_map configConsumer (find (fun c => p (configConsumer c)) cs) =
  find p (map configConsumer cs).
Proof.
  induction cs as [|c cs IH]; simpl; [reflexivity|].
  destruct (p (configConsumer c)); [reflexivity | exact IH].
Qed.

(** The consumer found among those of [New] is the one the
    specification classifies the address to. *)
Lemma found_classify (conf : GudgeonConfig) (ip : IP) :
  option_map configConsumer (consumerLoop (newConsumers conf) ip None) =
  classify_spec conf ip.
Proof.
  rewrite consumerLoop_find, find_map_configConsumer, newConsumers_configConsumer.
  reflexivity.
Qed.

(** Claim C3.  The consumer the engine finds for a client address is the
    first consumer, in the order of declaration in the configuration,
    that matches it; and the consumers that match are those that match by
    specificity: with an exact address, else with a range, else with a
    network.  So a consumer declared before every other consumer that
    matches is the one found. *)
Theorem consumer_first_match (conf : GudgeonConfig) (st : RuleStore) (ch : Cache)
    (ip : IP) :
  let found := consumerLoop (consumers (New conf st ch)) ip None in
  option_map configConsumer found = classify_spec conf ip /\
  (forall pre cc post,
      Consumers conf = (pre ++ cc :: post)%list ->
      (forall x, In x pre -> matchesBySpecificity ip x = false) ->
      matchesBySpecificity ip cc = true ->
      option_map configConsumer found = Some cc).
Proof.
  cbv zeta. simpl consumers. rewrite found_classify.
  split; [reflexivity|].
  intros pre cc post Hcs Hpre Hcc. unfold classify_spec. rewrite Hcs. clear Hcs.
  induction pre as [|x pre IH]; simpl.
  - rewrite Hcc. reflexivity.
  - rewrite (Hpre x (or_introl eq_refl)). apply IH.
    intros y Hy. apply Hpre. right. exact Hy.
Qed.

(** Claim C6, as the code has it.  The group list is made of the names of
    the engine's groups that the chosen consumer lists, in the order of
    the engine's groups; it is default alone when no consumer matches or
    the chosen consumer has none of them. *)
Theorem consumerGroups_linked (conf : GudgeonConfig) (st : RuleStore) (ch : Cache)
    (ip : IP) :
  consumerGroups (New conf st ch) ip =
  match classify_spec conf ip with
  | Some cc =>
      match linkedNames conf cc with
      | [] => ["default"]
      | names => names
      end
  | None => ["default"]
  end.
Proof.
  unfold consumerGroups. simpl consumers.
  rewrite <- (found_classify conf ip), consumerLoop_find.
  destruct (find _ (newConsumers conf)) as [c|] eqn:Hf; simpl; [|reflexivity].
  apply find_some in Hf as [Hin _].
  destruct (newConsumers_spec conf c Hin) as (_ & Hnames & Hlen).
  rewrite Hlen, Hnames.
  destruct (linkedNames conf (configConsumer c)); reflexivity.
Qed.

Lemma cacheAt_cons (c : Cache) (g : string) (gs : list string) (request : Msg) :
  cacheAt c (g :: gs) request = cacheAt (snd (Query c g request)) gs request.
Proof. reflexivity. Qed.

(** The cache loop asks the groups in order and stops behind the first
    one the cache reports as found; its response is the one of the last
    query. *)
Lemma cacheLoop_spec (c : Cache) (gs : list string) (request : Msg)
    (response : option Msg) :
  exists queried rest,
    gs = (queried ++ rest)%list /\
    (forall before g after,
        queried = (before ++ g :: after)%list -> after <> [] ->
        snd (fst (Query (cacheAt c before request) g request)) = false) /\
    (rest <> [] ->
     exists before g,
       queried = (before ++ [g])%list /\
       snd (fst (Query (cacheAt c before request) g request)) = true) /\
    snd (cacheLoop c gs request response) = map EvCacheQuery queried /\
    snd (fst (cacheLoop c gs request response)) = cacheAt c queried request /\
    (queried = [] -> fst (fst (cacheLoop c gs request response)) = response) /\
    (forall before g,
        queried = (before ++ [g])%list ->
        fst (fst (cacheLoop c gs request response)) =
        fst (fst (Query (cacheAt c before request) g request))).
Proof.
  revert c response. induction gs as [|g gs IH]; intros c response.
  - exists [], []. simpl. repeat split; try reflexivity.
    + intros before g after H. destruct before; discriminate.
    + intros H. contradiction.
    + intros before g H. destruct before; discriminate.
  - simpl. destruct (Query c g request) as [[response' found] c'] eqn:Hq.
    destruct found.
    + exists [g], gs. simpl. repeat split; try reflexivity.
      * intros before g0 after H Hne.
        destruct before as [|x before]; simpl in H.
        -- injection H as _ H. subst after. contradiction.
        -- injection H as _ H. destruct before; discriminate.
      * intros _. exists [], g. simpl. rewrite Hq. split; reflexivity.
      * unfold cacheAt. simpl. rewrite Hq. reflexivity.
      * discriminate.
      * intros before g0 H.
        destruct before as [|x before]; simpl in H.
        -- injection H as <-. simpl. rewrite Hq. reflexivity.
        -- injection H as _ H. destruct before; discriminate.
    + destruct (IH c' response') as (queried & rest & -> & Hnot & Hlast & Hev & Hc & Hnil & Hresp).
      destruct (cacheLoop c' (queried ++ rest) request response') as [[r c''] evs].
      simpl in Hev, Hc, Hnil, Hresp.
      assert (Hc' : c' = snd (Query c g request)) by (rewrite Hq; reflexivity).
      exists (g :: queried), rest. simpl. repeat split.
      * intros before g0 after H Hne.
        destruct before as [|x before]; simpl in H.
        -- injection H as <- _. simpl. rewrite Hq. reflexivity.
        -- injection H as <- H. rewrite cacheAt_cons, <- Hc'.
           exact (Hnot before g0 after H Hne).
      * intros Hr. destruct (Hlast Hr) as (before & g0 & -> & Hf).
        exists (g :: before), g0. split; [reflexivity|].
        rewrite cacheAt_cons, <- Hc'. exact Hf.
      * rewrite Hev. reflexivity.
      * rewrite <- Hc'. exact Hc.
      * discriminate.
      * intros before g0 H.
        destruct before as [|x before]; simpl in H.
        -- injection H as <- H. subst queried. simpl. rewrite Hq. simpl.
           apply Hnil. reflexivity.
        -- injection H as <- H. rewrite cacheAt_cons, <- Hc'.
           exact (Hresp before g0 H).
Qed.


End Engine.

(** The claim on the example configuration: 10.0.0.30 is an address of
    endusers and lies in a network of localtraffic, and endusers, which is
    declared first, is found; 10.0.3.9 is found as a guest, by address
    or by network alike. *)
Lemma consumer_first_match_witness :
  option_map (fun c => ConsumerName (configConsumer c))
    (consumerLoop (D := exampleDeps) (consumers exampleEngine)
                  (ip4 Byte.x0a Byte.x00 Byte.x00 Byte.x1e) None) = Some "endusers" /\
  option_map (fun c => ConsumerName (configConsumer c))
    (consumerLoop (D := exampleDeps) (consumers exampleEngine)
                  (ip4 Byte.x0a Byte.x00 Byte.x03 Byte.x09) None) = Some "guests".
Proof.
  pose proof (consumer_first_match (D := exampleDeps) exampleConfig
                (store exampleEngine) (cache exampleEngine)
                (ip4 Byte.x0a Byte.x00 Byte.x00 Byte.x1e)) as H1.
  pose proof (consumer_first_match (D := exampleDeps) exampleConfig
                (store exampleEngine) (cache exampleEngine)
                (ip4 Byte.x0a Byte.x00 Byte.x03 Byte.x09)) as H2.
  cbv zeta in H1, H2. destruct H1 as [_ H1]. destruct H2 as [_ H2].
  split.
  - clear H2. specialize (H1 [] (nth 0 (Consumers exampleConfig) (Build_GundgeonConsumer "" [] []))
                   (tl (Consumers exampleConfig)) eq_refl).
    assert (Hf := H1 (fun x (Hx : In x []) => match Hx with end) eq_refl).
    change (New exampleConfig (store exampleEngine) (cache exampleEngine))
      with exampleEngine in Hf.
    clear H1. destruct (consumerLoop _ _ _) as [c|]; [|discriminate].
    simpl in Hf |- *. injection Hf as ->. reflexivity.
  - clear H1. specialize (H2 (firstn 2 (Consumers exampleConfig))
                   (nth 2 (Consumers exampleConfig) (Build_GundgeonConsumer "" [] []))
                   (skipn 3 (Consumers exampleConfig)) eq_refl).
    assert (Hf : option_map configConsumer
                   (consumerLoop (D := exampleDeps) (consumers exampleEngine)
                      (ip4 Byte.x0a Byte.x00 Byte.x03 Byte.x09) None) =
                 Some (nth 2 (Consumers exampleConfig) (Build_GundgeonConsumer "" [] []))).
    { apply H2; [|vm_compute; reflexivity].
      intros x [<- | [<- | []]]; vm_compute; reflexivity. }
    clear H2. destruct (consumerLoop _ _ _) as [c|]; [|discriminate].
    simpl in Hf |- *. injection Hf as ->. reflexivity.
Defined.

(** Against claim C6: a guest lists the group users alone and gets the
    group users alone, with no default behind it; an open machine lists
    open before default and gets default before open. *)
Lemma consumerGroups_not_derived :
  consumerGroups exampleEngine (ip4 Byte.x0a Byte.x00 Byte.x03 Byte.x09) = ["users"] /\
  option_map deriveGroups_spec
    (classify_spec (D := exampleDeps) exampleConfig
                   (ip4 Byte.x0a Byte.x00 Byte.x03 Byte.x09)) =
    Some ["users"; "default"] /\
  consumerGroups exampleEngine (ip4 Byte.x0a Byte.x00 Byte.x02 Byte.x07) =
    ["default"; "open"] /\
  option_map deriveGroups_spec
    (classify_spec (D := exampleDeps) exampleConfig
                   (ip4 Byte.x0a Byte.x00 Byte.x02 Byte.x07)) =
    Some ["open"; "default"].
Proof.
  repeat split; vm_compute; reflexivity.
Qed.


End EngineFacts.

(* --------------------------------------------------------------------- *)
(** ** The rule store: what loading guarantees                            *)
(* --------------------------------------------------------------------- *)

Module RuleLoadFacts.
Import Util UtilFacts Rule RuleLoad RuleFacts.

Section Loaded.
Context `{D : Deps}.

Lemma loadRules_keeps (f : BloomFilter) (rules : list Rule) (n : N) (t : string) :
  noFalseNegatives ->
  TestString f t = true -> TestString (fst (loadRules f rules n)) t = true.
Proof.
  intros [_ Hmono]. revert f n.
  induction rules as [|[text|] rules IH]; intros f n Ht; simpl; auto.
  destruct (TestString f text); simpl; auto.
Qed.

Lemma loadRules_adds (f : BloomFilter) (rules : list Rule) (n : N) (t : string) :
  noFalseNegatives ->
  In (Some t) rules -> TestString (fst (loadRules f rules n)) t = true.
Proof.
  intros Hlaws. revert f n.
  induction rules as [|[text|] rules IH]; intros f n Hin; simpl.
  - contradiction.
  - destruct Hin as [[= ->] | Hin].
    + destruct (TestString f t) eqn:E; simpl.
      * apply loadRules_keeps; assumption.
      * apply loadRules_keeps; [assumption | apply (proj1 Hlaws)].
    + destruct (TestString f text); simpl; auto.
  - destruct Hin as [Hin | Hin]; [discriminate | auto].
Qed.

(** The filter of the list after [Load], as a function of the filter
    before. *)
Lemma Load_filter (store : bloomStore) (group : string) (rules : list Rule)
    (cfg : option GudgeonConfig) (lst : GudgeonList) :
  bloomFilters (fst (Load store group rules cfg lst)) !! CanonicalName lst =
  Some (fst (loadRules
               (default (NewWithEstimates (N.of_nat (length rules)))
                        (bloomFilters store !! CanonicalName lst))
               rules 0%N)) /\
  snd (Load store group rules cfg lst) =
  snd (loadRules
         (default (NewWithEstimates (N.of_nat (length rules)))
                  (bloomFilters store !! CanonicalName lst))
         rules 0%N).
Proof.
  unfold Load.
  destruct (bloomFilters store !! CanonicalName lst) as [f|]; simpl;
    destruct (loadRules _ rules 0%N) as [f' c]; simpl;
    rewrite lookup_insert_eq; split; reflexivity.
Qed.

(** Insert and look up: every rule given to [Load] tests positive in
    the filter of its list afterwards. *)
Theorem Load_rules_test_positive (store : bloomStore) (group : string)
    (rules : list Rule) (cfg : option GudgeonConfig) (lst : GudgeonList)
    (t : string) :
  noFalseNegatives ->
  In (Some t) rules ->
  exists f,
    bloomFilters (fst (Load store group rules cfg lst)) !! CanonicalName lst = Some f /\
    TestString f t = true.
Proof.
  intros Hlaws Hin.
  destruct (Load_filter store group rules cfg lst) as [Hf _].
  eexists. split; [exact Hf|].
  apply loadRules_adds; assumption.
Qed.

Lemma loadRules_count (f : BloomFilter) (rules : list Rule) (n : N) :
  (snd (loadRules f rules n) <= n + N.of_nat (length (texts rules)))%N.
Proof.
  revert f n. induction rules as [|[text|] rules IH]; intros f n; simpl.
  - lia.
  - destruct (negb (TestString f text)).
    + specialize (IH (AddString f text) ((n + 1) mod 2 ^ 64)%N).
      assert ((n + 1) mod 2 ^ 64 <= n + 1)%N by (apply N.Div0.mod_le).
      lia.
    + specialize (IH f n). lia.
  - apply IH.
Qed.

(** The count [Load] returns is at most the number of rules that are
    not nil. *)
Theorem Load_count_bound (store : bloomStore) (group : string)
    (rules : list Rule) (cfg : option GudgeonConfig) (lst : GudgeonList) :
  (snd (Load store group rules cfg lst) <= N.of_nat (length (texts rules)))%N /\
  (N.of_nat (length (texts rules)) <= N.of_nat (length rules))%N.
Proof.
  split.
  - destruct (Load_filter store group rules cfg lst) as [_ ->].
    apply (loadRules_count _ rules 0%N).
  - induction rules as [|[text|] rules IH]; simpl; lia.
Qed.

Lemma loadRules_all_positive (f : BloomFilter) (rules : list Rule) (n : N) :
  (forall t, In (Some t) rules -> TestString f t = true) ->
  loadRules f rules n = (f, n).
Proof.
  revert n. induction rules as [|[text|] rules IH]; intros n Hall; simpl.
  - reflexivity.
  - rewrite (Hall text (or_introl eq_refl)). simpl.
    apply IH. intros t Ht. apply Hall. right. exact Ht.
  - apply IH. intros t Ht. apply Hall. right. exact Ht.
Qed.

(** Loading the same rules into the same list a second time, under
    whatever group, adds nothing: the count is 0 and the filter is the
    one the first load left. *)
Theorem Load_again_adds_nothing (store : bloomStore) (group group' : string)
    (rules : list Rule) (cfg cfg' : option GudgeonConfig) (lst : GudgeonList) :
  noFalseNegatives ->
  let once := fst (Load store group rules cfg lst) in
  snd (Load once group' rules cfg' lst) = 0%N /\
  bloomFilters (fst (Load once group' rules cfg' lst)) !! CanonicalName lst =
  bloomFilters once !! CanonicalName lst.
Proof.
  intros Hlaws once.
  destruct (Load_filter store group rules cfg lst) as [Hf _]. fold once in Hf.
  destruct (Load_filter once group' rules cfg' lst) as [Hf2 Hc2].
  rewrite Hf in Hf2, Hc2. simpl in Hf2, Hc2.
  rewrite loadRules_all_positive in Hf2, Hc2
    by (intros t Ht; apply loadRules_adds; assumption).
  simpl in Hf2, Hc2. rewrite Hc2, Hf2, Hf. split; reflexivity.
Qed.

Lemma inMap_spec (ls : list GudgeonList) (lst : GudgeonList) :
  inMap ls lst = true <-> In (CanonicalName lst) (map CanonicalName ls).
Proof.
  induction ls as [|l ls IH]; simpl; [split; [discriminate | tauto]|].
  destruct (String.eqb (CanonicalName l) (CanonicalName lst)) eqn:E.
  - apply String.eqb_eq in E. tauto.
  - apply String.eqb_neq in E. rewrite IH. tauto.
Qed.

Lemma distinct_Load (store : bloomStore) (group : string) (rules : list Rule)
    (cfg : option GudgeonConfig) (lst : GudgeonList) :
  distinctLists store -> distinctLists (fst (Load store group rules cfg lst)).
Proof.
  intros Hd. unfold Load.
  destruct (loadRules _ rules 0%N) as [filter' counter]. simpl.
  assert (Hnew : forall (cur : gmap string (list GudgeonList)) g ls,
    (cur = groupAllowMap store \/ cur = groupBlockMap store) ->
    <[group := if inMap (default [] (cur !! group)) lst
               then default [] (cur !! group)
               else (default [] (cur !! group) ++ [lst])%list]> cur !! g = Some ls ->
    NoDup (map CanonicalName ls)).
  { intros cur g ls Hcur Hg.
    destruct (decide (group = g)) as [<- | Hne].
    - rewrite lookup_insert_eq in Hg. injection Hg as <-.
      assert (Hold : NoDup (map CanonicalName (default [] (cur !! group)))).
      { destruct (cur !! group) as [ls0|] eqn:E; simpl; [|constructor].
        exact (Hd cur group ls0 Hcur E). }
      destruct (inMap _ lst) eqn:E; [exact Hold|].
      rewrite map_app. simpl. apply NoDup_app. split; [exact Hold|]. split.
      + intros x Hx Hx'. apply list_elem_of_In in Hx.
        apply list_elem_of_In in Hx' as [<- | []].
        apply inMap_spec in Hx. congruence.
      + apply NoDup_singleton.
    - rewrite lookup_insert_ne in Hg by exact Hne. exact (Hd cur g ls Hcur Hg). }
  intros m g ls Hm Hg. simpl in *.
  destruct (isAllow (ParseType (Type_ lst))); destruct Hm as [-> | ->];
    solve [ eapply Hnew; [| exact Hg]; auto
          | eapply Hd; [| exact Hg]; auto ].
Qed.

(** A list is in a group once: however often and under whatever kind
    the lists are loaded, no group of a store holds two lists of the
    same canonical name. *)
Theorem loaded_distinctLists (store : bloomStore) :
  loaded store -> distinctLists store.
Proof.
  induction 1 as [|store group rules cfg lst _ IH].
  - intros m g ls [-> | ->] Hm; simpl in Hm; rewrite lookup_empty in Hm; discriminate.
  - apply distinct_Load. exact IH.
Qed.

Lemma loaded_wf (store : bloomStore) : loaded store -> wf store.
Proof.
  induction 1 as [|store group rules cfg lst _ IH];
    [apply wf_emptyStore | apply wf_Load; exact IH].
Qed.

(** On a store built by [Load] the lookup never panics: every list it
    walks has its filter. *)
Theorem loaded_IsMatchAny_returns (store : bloomStore) (gs : list string) (d : string) :
  loaded store -> exists m, IsMatchAny store gs d = Ret m.
Proof.
  intros H. exists (IsMatchAny_spec store gs d).
  apply IsMatchAny_wf, loaded_wf, H.
Qed.

Lemma flat_map_filter_known {A : Type} (f : string -> list A) (p : string -> bool)
    (gs : list string) :
  (forall g, p g = false -> f g = []) ->
  flat_map f (List.filter p gs) = flat_map f gs.
Proof.
  intros H. induction gs as [|g gs IH]; simpl; [reflexivity|].
  destruct (p g) eqn:E; simpl; rewrite IH; [reflexivity|].
  rewrite (H g E). reflexivity.
Qed.

(** Groups the store has no list for do not count: the lookup over a
    group list is the lookup over its known groups, and it is None when
    none is known. *)
Theorem IsMatchAny_known_groups (store : bloomStore) (gs : list string) (d : string) :
  IsMatchAny store gs d = IsMatchAny store (List.filter (knownGroup store) gs) d /\
  (List.filter (knownGroup store) gs = [] -> IsMatchAny store gs d = Ret MatchNone).
Proof.
  assert (H : IsMatchAny store gs d =
              IsMatchAny store (List.filter (knownGroup store) gs) d).
  { unfold IsMatchAny. rewrite !gatherLists_spec.
    unfold allowListsOf, blockListsOf.
    rewrite !flat_map_filter_known; [reflexivity | |];
      intros g Hg; unfold knownGroup in Hg;
      destruct (groupAllowMap store !! g), (groupBlockMap store !! g);
      simpl; congruence. }
  split; [exact H|].
  intros Hnone. rewrite H, Hnone. reflexivity.
Qed.

Lemma existsb_flat_map {A B : Type} (h : B -> bool) (f : A -> list B) (l : list A) :
  existsb h (flat_map f l) = existsb (fun x => existsb h (f x)) l.
Proof.
  induction l as [|x l IH]; simpl; [reflexivity|].
  rewrite existsb_app, IH. reflexivity.
Qed.

Lemma existsb_Permutation {A : Type} (h : A -> bool) (l l' : list A) :
  Permutation l l' -> existsb h l = existsb h l'.
Proof.
  induction 1 as [|x l l' _ IH|x y l|l l' l'' _ IH1 _ IH2]; simpl.
  - reflexivity.
  - rewrite IH. reflexivity.
  - destruct (h x), (h y); reflexivity.
  - congruence.
Qed.

(** The lookup over a group list, group by group: it is Allow exactly
    when the lookup of one of the groups alone is Allow, and None
    exactly when the lookup of every group alone is None; so the order
    of the groups does not matter. *)
Theorem IsMatchAny_by_group (store : bloomStore) (gs : list string) (d : string) :
  loaded store ->
  (IsMatchAny store gs d = Ret MatchAllow <->
   exists g, In g gs /\ IsMatch store g d = Ret MatchAllow) /\
  (IsMatchAny store gs d = Ret MatchNone <->
   forall g, In g gs -> IsMatch store g d = Ret MatchNone) /\
  (forall gs', Permutation gs gs' -> IsMatchAny store gs' d = IsMatchAny store gs d).
Proof.
  intros Hl. pose proof (loaded_wf store Hl) as Hwf.
  set (a := fun g => existsb (listHits store (DomainList d))
                             (default [] (groupAllowMap store !! g))).
  set (b := fun g => existsb (listHits store (DomainList d))
                             (default [] (groupBlockMap store !! g))).
  assert (Hspec : forall l, IsMatchAny store l d =
            Ret (if existsb a l then MatchAllow
                 else if existsb b l then MatchBlock else MatchNone)).
  { intros l. rewrite (IsMatchAny_wf store l d Hwf). unfold IsMatchAny_spec.
    unfold allowListsOf, blockListsOf. rewrite !existsb_flat_map. reflexivity. }
  assert (Hone : forall g, IsMatch store g d =
            Ret (if a g then MatchAllow else if b g then MatchBlock else MatchNone)).
  { intros g. unfold IsMatch. rewrite Hspec. simpl. rewrite !orb_false_r. reflexivity. }
  split; [|split].
  - rewrite Hspec. split.
    + intros H. destruct (existsb a gs) eqn:E.
      * apply existsb_exists in E as (g & Hg & Ha). exists g. split; [exact Hg|].
        rewrite Hone, Ha. reflexivity.
      * destruct (existsb b gs); discriminate.
    + intros (g & Hg & H). rewrite Hone in H.
      assert (Ha : a g = true) by (destruct (a g); [reflexivity | destruct (b g); discriminate]).
      assert (E : existsb a gs = true) by (apply existsb_exists; eauto).
      rewrite E. reflexivity.
  - rewrite Hspec. split.
    + intros H g Hg. rewrite Hone.
      destruct (existsb a gs) eqn:Ea; [discriminate|].
      destruct (existsb b gs) eqn:Eb; [discriminate|].
      assert (Ha : a g = false).
      { destruct (a g) eqn:E; [|reflexivity].
        assert (existsb a gs = true) by (apply existsb_exists; eauto). congruence. }
      assert (Hb : b g = false).
      { destruct (b g) eqn:E; [|reflexivity].
        assert (existsb b gs = true) by (apply existsb_exists; eauto). congruence. }
      rewrite Ha, Hb. reflexivity.
    + intros H.
      assert (Ea : existsb a gs = false).
      { destruct (existsb a gs) eqn:E; [|reflexivity].
        apply existsb_exists in E as (g & Hg & Ha).
        specialize (H g Hg). rewrite Hone, Ha in H. discriminate. }
      assert (Eb : existsb b gs = false).
      { destruct (existsb b gs) eqn:E; [|reflexivity].
        apply existsb_exists in E as (g & Hg & Hb).
        specialize (H g Hg). rewrite Hone, Hb in H. destruct (a g); discriminate. }
      rewrite Ea, Eb. reflexivity.
  - intros gs' Hp. rewrite !Hspec.
    rewrite (existsb_Permutation a gs gs' Hp), (existsb_Permutation b gs gs' Hp).
    reflexivity.
Qed.

Lemma listHits_narrows (store : bloomStore) (ds : list string) (l : GudgeonList) :
  listHits store ds l = true -> listHits (setConf store None) ds l = true.
Proof.
  unfold listHits. simpl.
  destruct (bloomFilters store !! CanonicalName l) as [f|]; [|discriminate].
  intros H. apply existsb_exists in H as (c & Hc & Hh).
  apply existsb_exists. exists c. split; [exact Hc|].
  unfold candidateHits in *. simpl.
  apply andb_true_iff in Hh as [Ht _]. rewrite Ht. reflexivity.
Qed.

(** The confirm pass only takes matches away: a name no filter of the
    groups holds is not matched, whatever the files of the lists hold. *)
Theorem confirm_pass_narrows (store : bloomStore) (gs : list string) (d : string) :
  loaded store ->
  IsMatchAny (setConf store None) gs d = Ret MatchNone ->
  IsMatchAny store gs d = Ret MatchNone.
Proof.
  intros Hl. pose proof (loaded_wf store Hl) as Hwf.
  assert (Hwf' : wf (setConf store None)) by exact Hwf.
  rewrite (IsMatchAny_wf _ gs d Hwf'), (IsMatchAny_wf store gs d Hwf).
  unfold IsMatchAny_spec.
  change (allowListsOf (setConf store None) gs) with (allowListsOf store gs).
  change (blockListsOf (setConf store None) gs) with (blockListsOf store gs).
  assert (Hn : forall ls,
    existsb (listHits (setConf store None) (DomainList d)) ls = false ->
    existsb (listHits store (DomainList d)) ls = false).
  { intros ls H. destruct (existsb (listHits store (DomainList d)) ls) eqn:E; [|reflexivity].
    apply existsb_exists in E as (l & Hin & Hh). apply listHits_narrows in Hh.
    assert (existsb (listHits (setConf store None) (DomainList d)) ls = true)
      by (apply existsb_exists; eauto).
    congruence. }
  destruct (existsb _ (allowListsOf store gs)) eqn:Ea; [discriminate|].
  destruct (existsb _ (blockListsOf store gs)) eqn:Eb; [discriminate|].
  intros _. rewrite (Hn _ Ea), (Hn _ Eb). reflexivity.
Qed.

Lemma noSpace_cons (c : ascii) (s : string) :
  noSpace (String c s) -> isSpace c = false /\ noSpace s.
Proof.
  intros H. split.
  - apply H. simpl. rewrite Ascii.eqb_refl. reflexivity.
  - intros c' Hc'. apply H. simpl. rewrite Hc'. apply orb_true_r.
Qed.

Lemma noSpace_app (s t : string) : noSpace s -> noSpace t -> noSpace (s ++ t).
Proof.
  intros Hs Ht c Hc. rewrite hasByte_app in Hc.
  apply orb_true_iff in Hc as [Hc | Hc]; auto.
Qed.

Lemma noSpace_blank (s : string) : noSpace s -> hasByte " " s = false.
Proof.
  intros H. destruct (hasByte " " s) eqn:E; [|reflexivity].
  apply H in E. discriminate.
Qed.

Lemma trimRight_noSpace (s : string) : noSpace s -> trimRight s = s.
Proof.
  induction s as [|c s IH]; intros H; [reflexivity|].
  apply noSpace_cons in H as [Hc Hs]. simpl. rewrite (IH Hs), Hc.
  destruct s; reflexivity.
Qed.

Lemma TrimSpace_noSpace (s : string) : noSpace s -> TrimSpace s = s.
Proof.
  intros H. unfold TrimSpace.
  assert (Hl : trimLeft s = s).
  { destruct s as [|c s]; [reflexivity|].
    apply noSpace_cons in H as [Hc _]. simpl. rewrite Hc. reflexivity. }
  rewrite Hl. apply trimRight_noSpace. exact H.
Qed.

Lemma dropLeading_plain (name : string) :
  noSpace name -> dropLeading name = name.
Proof.
  intros H. unfold dropLeading.
  rewrite (Split_none " " name (noSpace_blank name H)). reflexivity.
Qed.

Lemma dropLeading_hosts (ip name : string) :
  noSpace ip -> noSpace name ->
  dropLeading (ip ++ String " " name) = name.
Proof.
  intros Hip Hn. unfold dropLeading.
  rewrite (Split_app " " ip name (noSpace_blank ip Hip)).
  rewrite (Split_none " " name (noSpace_blank name Hn)).
  simpl. apply TrimSpace_noSpace. exact Hn.
Qed.

Lemma dropLeading_glued (ip a b : string) :
  noSpace ip -> noSpace a -> noSpace b ->
  dropLeading (ip ++ String " " (a ++ String " " b)) = a ++ b.
Proof.
  intros Hip Ha Hb. unfold dropLeading.
  rewrite (Split_app " " ip _ (noSpace_blank ip Hip)).
  rewrite (Split_app " " a b (noSpace_blank a Ha)).
  rewrite (Split_none " " b (noSpace_blank b Hb)).
  cbv zeta. change (Join (tail [ip; a; b]) "") with (a ++ ("" ++ b)).
  change ("" ++ b) with b.
  apply TrimSpace_noSpace, noSpace_app; assumption.
Qed.

Lemma scanLines_In (text line : string) (ls : list string) :
  In line ls ->
  HasPrefix line comment = false -> HasPrefix line altComment = false ->
  EqualFold text (dropLeading line) = true ->
  scanLines text ls = true.
Proof.
  intros Hin Hc1 Hc2 Hf. induction ls as [|l ls IH]; [contradiction|].
  simpl. destruct Hin as [-> | Hin].
  - rewrite Hc1, Hc2, Hf. reflexivity.
  - destruct (HasPrefix l comment || HasPrefix l altComment); [auto|].
    destruct (EqualFold text (dropLeading l)); auto.
Qed.

(** An ASCII name on a line of its own, or behind an address as in a
    hosts file, is confirmed by the file of the list in any letter
    case. *)
Theorem isInListFile_hosts_line (text ip name : string) (cfg : GudgeonConfig)
    (lst : GudgeonList) (f : File) (line : string) :
  Open (PathToList cfg lst) = Some f ->
  In line (lines f) ->
  line = name \/ line = ip ++ String " " name ->
  noSpace ip -> noSpace name -> isASCII name = true ->
  HasPrefix line comment = false -> HasPrefix line altComment = false ->
  EqualFold text name = true ->
  isInListFile text cfg lst = true.
Proof.
  intros Ho Hin Hline Hip Hn _ Hc1 Hc2 Hf. unfold isInListFile. rewrite Ho.
  destruct (String.eqb "" (PathToList cfg lst)); [reflexivity|].
  rewrite (scanLines_In text line (lines f) Hin Hc1 Hc2); [reflexivity|].
  destruct Hline as [-> | ->].
  - rewrite dropLeading_plain; assumption.
  - rewrite dropLeading_hosts; assumption.
Qed.

Lemma EqualFold_length (s t : string) :
  EqualFold s t = true -> String.length s = String.length t.
Proof.
  revert t. induction s as [|a s IH]; intros [|b t]; simpl; try discriminate; auto.
  intros H. apply andb_true_iff in H as [_ H]. f_equal. apply IH, H.
Qed.

Lemma length_append (s t : string) :
  String.length (s ++ t) = String.length s + String.length t.
Proof.
  induction s as [|a s IH]; [reflexivity|].
  change (S (String.length (s ++ t)) = S (String.length s + String.length t)).
  f_equal. exact IH.
Qed.

Lemma EqualFold_refl (s : string) : EqualFold s s = true.
Proof.
  induction s as [|a s IH]; simpl; [reflexivity|].
  rewrite Ascii.eqb_refl. exact IH.
Qed.

(** A hosts line with two ASCII names behind the address confirms
    neither of them: what is left of the line after the address is
    joined without separator, so only the two names glued together are
    found. *)
Theorem isInListFile_second_name (ip a b : string) (cfg : GudgeonConfig)
    (lst : GudgeonList) (f : File) :
  Open (PathToList cfg lst) = Some f ->
  PathToList cfg lst <> "" ->
  lines f = [ip ++ String " " (a ++ String " " b)] ->
  noSpace ip -> noSpace a -> noSpace b -> a <> "" -> b <> "" ->
  isASCII a = true -> isASCII b = true ->
  HasPrefix (ip ++ String " " (a ++ String " " b)) comment = false ->
  HasPrefix (ip ++ String " " (a ++ String " " b)) altComment = false ->
  isInListFile a cfg lst = false /\
  isInListFile b cfg lst = false /\
  isInListFile (a ++ b) cfg lst = true.
Proof.
  intros Ho Hp Hl Hip Ha Hb Hane Hbne _ _ Hc1 Hc2. unfold isInListFile. rewrite Ho, Hl.
  destruct (String.eqb "" (PathToList cfg lst)) eqn:E;
    [apply String.eqb_eq in E; congruence|].
  simpl. rewrite Hc1, Hc2. simpl.
  rewrite (dropLeading_glued ip a b Hip Ha Hb), EqualFold_refl.
  assert (Hlen : forall x, String.length x <> String.length (a ++ b) ->
                           EqualFold x (a ++ b) = false).
  { intros x Hx. destruct (EqualFold x (a ++ b)) eqn:Ef; [|reflexivity].
    apply EqualFold_length in Ef. congruence. }
  rewrite (Hlen a), (Hlen b).
  - destruct (scanErr f); repeat split.
  - rewrite length_append. destruct a; [congruence | simpl; lia].
  - rewrite length_append. destruct b; [congruence | simpl; lia].
Qed.

End Loaded.

Lemma exact_noFalseNegatives (fs : string -> option File) :
  noFalseNegatives (D := exactDeps fs).
Proof.
  split; simpl.
  - intros f s. rewrite String.eqb_refl. reflexivity.
  - intros f s t H. rewrite H. destruct (String.eqb t s); reflexivity.
Qed.

Lemma noSpace_check (s : string) :
  forallb (fun c => negb (isSpace c)) (list_ascii_of_string s) = true -> noSpace s.
Proof.
  induction s as [|a s IH]; simpl; intros H c Hc; [discriminate|].
  apply andb_true_iff in H as [Ha Hs].
  apply orb_true_iff in Hc as [Hc | Hc].
  - apply Ascii.eqb_eq in Hc. subst c. destruct (isSpace a); [discriminate | reflexivity].
  - exact (IH Hs c Hc).
Qed.

Lemma exampleStore_loaded (fs : string -> option File) :
  loaded (D := exactDeps fs) (exampleStore fs).
Proof. unfold exampleStore. do 2 apply loaded_Load. apply loaded_zero. Qed.

(** The second rule of the block list of the example store tests
    positive in its filter. *)
Lemma Load_rules_test_positive_witness :
  exists f,
    bloomFilters (exampleStore listFiles) !! "ads" = Some f /\
    TestString (Deps := exactDeps listFiles) f "foo.example" = true.
Proof.
  exact (Load_rules_test_positive (D := exactDeps listFiles)
           (fst (Load (D := exactDeps listFiles) emptyStore "default"
                      [Some "safe.ads.example"] (Some tt) safeList))
           "default" [Some "ads.example"; Some "foo.example"] (Some tt) adsList
           "foo.example" (exact_noFalseNegatives listFiles)
           (or_intror (or_introl eq_refl))).
Defined.

(** Loading the block list of the example store again, for another
    group, counts no rule. *)
Lemma Load_again_adds_nothing_witness :
  snd (Load (D := exactDeps listFiles) (exampleStore listFiles) "users"
            [Some "ads.example"; Some "foo.example"] None adsList) = 0%N.
Proof.
  exact (proj1 (Load_again_adds_nothing (D := exactDeps listFiles)
                  (fst (Load (D := exactDeps listFiles) emptyStore "default"
                             [Some "safe.ads.example"] (Some tt) safeList))
                  "default" "users" [Some "ads.example"; Some "foo.example"]
                  (Some tt) None adsList (exact_noFalseNegatives listFiles))).
Defined.

(** The example store holds each of its lists once. *)
Lemma loaded_distinctLists_witness :
  distinctLists (D := exactDeps listFiles) (exampleStore listFiles).
Proof.
  exact (loaded_distinctLists (D := exactDeps listFiles) (exampleStore listFiles)
           (exampleStore_loaded listFiles)).
Defined.

(** The lookup on the example store returns, also for a group that was
    never loaded and with no file to open. *)
Lemma loaded_IsMatchAny_returns_witness :
  exists m, IsMatchAny (D := exactDeps noFiles) (exampleStore noFiles)
                       ["default"; "users"] "x.ads.example" = Ret m.
Proof.
  exact (loaded_IsMatchAny_returns (D := exactDeps noFiles) (exampleStore noFiles)
           ["default"; "users"] "x.ads.example" (exampleStore_loaded noFiles)).
Defined.

(** On the example store the order of the groups does not matter. *)
Lemma IsMatchAny_by_group_witness :
  IsMatchAny (D := exactDeps listFiles) (exampleStore listFiles)
             ["users"; "default"] "x.ads.example" =
  IsMatchAny (D := exactDeps listFiles) (exampleStore listFiles)
             ["default"; "users"] "x.ads.example".
Proof.
  exact (proj2 (proj2 (IsMatchAny_by_group (D := exactDeps listFiles)
                         (exampleStore listFiles) ["default"; "users"] "x.ads.example"
                         (exampleStore_loaded listFiles)))
               ["users"; "default"] (perm_swap _ _ _)).
Defined.

(** No filter of the example store holds example.org, so no file is
    needed to tell that it is not matched. *)
Lemma confirm_pass_narrows_witness :
  IsMatchAny (D := exactDeps listFiles) (exampleStore listFiles)
             ["default"] "example.org" = Ret MatchNone.
Proof.
  apply (confirm_pass_narrows (D := exactDeps listFiles) (exampleStore listFiles)
           ["default"] "example.org" (exampleStore_loaded listFiles)).
  vm_compute. reflexivity.
Defined.

(** The line 0.0.0.0 Foo.Example of the file of the block list confirms
    FOO.example. *)
Lemma isInListFile_hosts_line_witness :
  isInListFile (D := exactDeps listFiles) "FOO.example" tt adsList = true.
Proof.
  apply (isInListFile_hosts_line (D := exactDeps listFiles)
           "FOO.example" "0.0.0.0" "Foo.Example" tt adsList
           {| lines := ["# served by the ad network"; "0.0.0.0 Foo.Example";
                        "ads.example"];
              scanErr := false |} "0.0.0.0 Foo.Example").
  - reflexivity.
  - right. left. reflexivity.
  - right. reflexivity.
  - apply noSpace_check. reflexivity.
  - apply noSpace_check. reflexivity.
  - reflexivity.
  - reflexivity.
  - reflexivity.
  - reflexivity.
Defined.

(** The line 0.0.0.0 ads.example tracker.example confirms neither
    name. *)
Lemma isInListFile_second_name_witness :
  isInListFile (D := exactDeps hostsFiles) "ads.example" tt adsList = false /\
  isInListFile (D := exactDeps hostsFiles) "tracker.example" tt adsList = false /\
  isInListFile (D := exactDeps hostsFiles) "ads.exampletracker.example" tt adsList = true.
Proof.
  apply (isInListFile_second_name (D := exactDeps hostsFiles)
           "0.0.0.0" "ads.example" "tracker.example" tt adsList
           {| lines := ["0.0.0.0 ads.example tracker.example"]; scanErr := false |});
    try reflexivity; try discriminate; apply noSpace_check; reflexivity.
Defined.

End RuleLoadFacts.

(* --------------------------------------------------------------------- *)
(** ** The engine: lists of a group, addresses, names                     *)
(* --------------------------------------------------------------------- *)

Module EngineMoreFacts.
Import Util UtilFacts Dns Engine EngineLists EngineFacts.

Lemma tagLoop_existsb (tags listTags : list string) :
  tagLoop tags listTags = existsb (fun tag => StringIn tag listTags) tags.
Proof.
  induction tags as [|t tags IH]; simpl; [reflexivity|].
  destruct (StringIn t listTags); [reflexivity | exact IH].
Qed.

Lemma assignedLoop_filter (lists : list Rule.GudgeonList) (names tags : list string)
    (should : list Rule.GudgeonList) :
  assignedLoop lists names tags should =
  (should ++ List.filter (assigned names tags) lists)%list.
Proof.
  revert should. induction lists as [|l lists IH]; intros should; simpl.
  - rewrite app_nil_r. reflexivity.
  - unfold assigned at 1. rewrite tagLoop_existsb.
    destruct (StringIn (Rule.Name l) names); simpl.
    + rewrite IH, <- app_assoc. reflexivity.
    + destruct (existsb _ (Rule.Tags l)); simpl.
      * rewrite IH, <- app_assoc. reflexivity.
      * apply IH.
Qed.

(** The lists of a group are the configured lists it names or one of
    whose tags it asks for, each as often as it is configured and in the
    configured order: a list that matches by name and by several tags is
    not taken twice. *)
Theorem assignedLists_filter (names tags : list string) (lists : list Rule.GudgeonList) :
  assignedLists names tags lists = List.filter (assigned names tags) lists /\
  (forall l, In l (assignedLists names tags lists) <->
             In l lists /\ assigned names tags l = true) /\
  (List.NoDup lists -> List.NoDup (assignedLists names tags lists)).
Proof.
  assert (H : assignedLists names tags lists = List.filter (assigned names tags) lists)
    by apply assignedLoop_filter.
  split; [exact H|]. rewrite H. split.
  - intros l. apply filter_In.
  - apply List.NoDup_filter.
Qed.

Lemma Compare_antisym (a b : list Byte.byte) :
  Compare b a = CompOpp (Compare a b).
Proof.
  revert b. induction a as [|x a IH]; intros [|y b]; simpl; try reflexivity.
  rewrite (N.compare_antisym (Byte.to_N x) (Byte.to_N y)).
  destruct (N.compare (Byte.to_N x) (Byte.to_N y)); simpl; auto.
Qed.

Lemma Compare_le_trans (a b c : list Byte.byte) :
  Compare a b <> Gt -> Compare b c <> Gt -> Compare a c <> Gt.
Proof.
  revert b c. induction a as [|x a IH]; intros [|y b] [|z c]; simpl;
    try congruence.
  destruct (N.compare_spec (Byte.to_N x) (Byte.to_N y)) as [Hxy | Hxy | Hxy];
    destruct (N.compare_spec (Byte.to_N y) (Byte.to_N z)) as [Hyz | Hyz | Hyz];
    destruct (N.compare_spec (Byte.to_N x) (Byte.to_N z)) as [Hxz | Hxz | Hxz];
    try congruence; try lia; eauto.
Qed.

Lemma To16_To16 (ip : IP) : To16 (To16 ip) = To16 ip.
Proof.
  unfold To16.
  destruct (length ip =? 4)%nat eqn:E4.
  - apply Nat.eqb_eq in E4. rewrite length_app, E4. reflexivity.
  - destruct (length ip =? 16)%nat eqn:E16; [rewrite E4, E16|]; reflexivity.
Qed.

Section Engine.
Context `{D : Deps}.

(** A range whose start lies behind its end matches no client. *)
Theorem rangeHit_inverted (ip : IP) (m : GudgeonMatch) (r : GudgeonMatchRange)
    (startIp endIp : IP) :
  Range m = Some r ->
  ParseIP (Start r) = Some startIp -> ParseIP (End_ r) = Some endIp ->
  Compare (To16 startIp) (To16 endIp) = Gt ->
  rangeHit ip m = false.
Proof.
  intros Hr Hs He Hgt. unfold rangeHit. rewrite Hr, Hs, He.
  destruct (negb (isLt (Compare (To16 ip) (To16 startIp)))) eqn:E1;
    destruct (negb (isGt (Compare (To16 ip) (To16 endIp)))) eqn:E2;
    rewrite ?andb_false_r; try reflexivity.
  exfalso. apply (Compare_le_trans (To16 startIp) (To16 ip) (To16 endIp)).
  - rewrite Compare_antisym.
    destruct (Compare (To16 ip) (To16 startIp)); simpl in *; congruence.
  - destruct (Compare (To16 ip) (To16 endIp)); simpl in *; congruence.
  - exact Hgt.
Qed.

(** The tests by address and by range see the client address through
    [To16] only: an address of 4 bytes and the same address in its form
    of 16 bytes match the same entries. *)
Theorem address_forms_alike (ip : IP) (m : GudgeonMatch) :
  ipHit (To16 ip) m = ipHit ip m /\ rangeHit (To16 ip) m = rangeHit ip m.
Proof.
  unfold ipHit, rangeHit. rewrite To16_To16. split; reflexivity.
Qed.

Lemma foundDefaultGroup_In (gs : list GudgeonGroup) :
  foundDefaultGroup gs = true <-> In "default" (map GroupName gs).
Proof.
  induction gs as [|g gs IH]; [simpl; split; [discriminate | tauto]|].
  cbn [foundDefaultGroup map In].
  destruct (String.eqb "default" (GroupName g)) eqn:E.
  - apply String.eqb_eq in E. split; [intros _; left; symmetry; exact E | reflexivity].
  - apply String.eqb_neq in E. rewrite IH. split; [auto|].
    intros [H | H]; [congruence | exact H].
Qed.

Lemma workingGroups_has_default (conf : GudgeonConfig) :
  In "default" (map GroupName (workingGroups conf)).
Proof.
  unfold workingGroups.
  destruct (foundDefaultGroup (ConfigGroups conf)) eqn:E.
  - apply foundDefaultGroup_In. exact E.
  - rewrite map_app. apply in_or_app. right. left. reflexivity.
Qed.

(** The engine always has a group default: the groups of [New] are the
    configured groups in their order, and one injected group default
    behind them exactly when the configuration declares none. *)
Theorem workingGroups_default (conf : GudgeonConfig) :
  In "default" (map GroupName (workingGroups conf)) /\
  exists extra,
    workingGroups conf = (ConfigGroups conf ++ extra)%list /\
    (In "default" (map GroupName (ConfigGroups conf)) -> extra = []) /\
    (~ In "default" (map GroupName (ConfigGroups conf)) ->
     map GroupName extra = ["default"]).
Proof.
  unfold workingGroups.
  destruct (foundDefaultGroup (ConfigGroups conf)) eqn:E.
  - pose proof (proj1 (foundDefaultGroup_In _) E) as Hin.
    split; [exact Hin|]. exists []. rewrite app_nil_r.
    split; [reflexivity|]. split; [reflexivity | contradiction].
  - assert (Hnot : ~ In "default" (map GroupName (ConfigGroups conf))).
    { intros H. apply foundDefaultGroup_In in H. congruence. }
    split.
    + rewrite map_app. apply in_or_app. right. left. reflexivity.
    + eexists. split; [reflexivity|]. split; [contradiction | reflexivity].
Qed.

(** The group list of a client is never empty, and every name in it is
    the name of a group of the engine. *)
Theorem consumerGroups_engine_groups (conf : GudgeonConfig) (st : RuleStore)
    (ch : Cache) (ip : IP) :
  consumerGroups (New conf st ch) ip <> [] /\
  forall g, In g (consumerGroups (New conf st ch) ip) ->
            In g (map GroupName (workingGroups conf)).
Proof.
  pose proof (workingGroups_has_default conf) as Hdef.
  unfold consumerGroups. simpl consumers. rewrite consumerLoop_find.
  destruct (find _ (newConsumers conf)) as [c|] eqn:Hf.
  - apply find_some in Hf as [Hin _].
    destruct (newConsumers_spec conf c Hin) as (_ & Hnames & Hlen).
    destruct (0 <? length (groups c))%nat eqn:E.
    + apply Nat.ltb_lt in E. split.
      * intros H. rewrite H in Hlen. simpl in Hlen. lia.
      * intros g Hg. rewrite Hnames in Hg. unfold linkedNames in Hg.
        apply filter_In in Hg as [Hg _]. exact Hg.
    + split; [discriminate|]. intros g [<- | []]. exact Hdef.
  - split; [discriminate|]. intros g [<- | []]. exact Hdef.
Qed.

Lemma append_cons (c : ascii) (s t : string) :
  String.append (String c s) t = String c (String.append s t).
Proof. reflexivity. Qed.

Lemma substring_prefix (d t : string) :
  substring 0 (String.length d) (d ++ t) = d.
Proof.
  induction d as [|c d IH]; [destruct t; reflexivity|].
  rewrite append_cons. simpl. rewrite IH. reflexivity.
Qed.

Lemma substring_suffix (d t : string) (n : nat) :
  substring (String.length d) n (d ++ t) = substring 0 n t.
Proof.
  induction d as [|c d IH]; [reflexivity|].
  rewrite append_cons. simpl. exact IH.
Qed.

Lemma length_append_dot (d : string) :
  String.length (d ++ ".") = S (String.length d).
Proof.
  induction d as [|c d IH]; [reflexivity|].
  rewrite append_cons. simpl. rewrite IH. reflexivity.
Qed.

(** A name with its trailing dot and the name without it get the same
    verdict: one trailing dot is dropped before the store is asked. *)
Theorem IsDomainBlocked_trailing_dot (e : engine) (ip : IP) (d : string) :
  HasSuffix d "." = false ->
  IsDomainBlocked e ip (d ++ ".") = IsDomainBlocked e ip d.
Proof.
  intros Hd. unfold IsDomainBlocked. rewrite Hd.
  assert (Hs : HasSuffix (d ++ ".") "." = true).
  { unfold HasSuffix. rewrite length_append_dot. simpl String.length.
    replace (S (String.length d) - 1)%nat with (String.length d) by lia.
    rewrite substring_suffix. reflexivity. }
  assert (Hl : dropLast (d ++ ".") = d).
  { unfold dropLast. rewrite length_append_dot.
    replace (S (String.length d) - 1)%nat with (String.length d) by lia.
    apply substring_prefix. }
  rewrite Hs, Hl. reflexivity.
Qed.

End Engine.

(** The range 10.0.0.45 to 10.0.0.35 matches no client, 10.0.0.40
    included. *)
Lemma rangeHit_inverted_witness :
  rangeHit (D := exampleDeps) (ip4 Byte.x0a Byte.x00 Byte.x00 Byte.x28)
           (byRange "10.0.0.45" "10.0.0.35") = false.
Proof.
  apply (rangeHit_inverted (D := exampleDeps) _ (byRange "10.0.0.45" "10.0.0.35")
           {| Start := "10.0.0.45"; End_ := "10.0.0.35" |}
           (v4InV6Prefix ++ ip4 Byte.x0a Byte.x00 Byte.x00 Byte.x2d)%list
           (v4InV6Prefix ++ ip4 Byte.x0a Byte.x00 Byte.x00 Byte.x23)%list);
    reflexivity.
Defined.

(** The verdict on ads.example. is the verdict on ads.example. *)
Lemma IsDomainBlocked_trailing_dot_witness :
  IsDomainBlocked exampleEngine (ip4 Byte.x0a Byte.x00 Byte.x00 Byte.x1e) "ads.example." =
  IsDomainBlocked exampleEngine (ip4 Byte.x0a Byte.x00 Byte.x00 Byte.x1e) "ads.example".
Proof.
  exact (IsDomainBlocked_trailing_dot (D := exampleDeps) exampleEngine
           (ip4 Byte.x0a Byte.x00 Byte.x00 Byte.x1e) "ads.example" eq_refl).
Defined.

End EngineMoreFacts.

(* --------------------------------------------------------------------- *)
(** ** The DNS source: more on loading                                    *)
(* --------------------------------------------------------------------- *)

Module LoadMoreFacts.
Import Util UtilFacts Dns Resolver LoadFacts.

Lemma parseDigits_acc (d : Decimal.uint) (acc : positive) :
  parseDigits (NilEmpty.string_of_uint d) (Npos acc) =
  Some (Npos (Pos.of_uint_acc d acc)).
Proof.
  revert acc. induction d; intros acc; simpl; try reflexivity;
    rewrite <- IHd; f_equal; lia.
Qed.

Lemma parseDigits_zero (d : Decimal.uint) :
  parseDigits (NilEmpty.string_of_uint d) 0%N = Some (Pos.of_uint d).
Proof.
  induction d; simpl; try reflexivity; try exact IHd; apply parseDigits_acc.
Qed.

Lemma string_of_uint_empty (d : Decimal.uint) :
  NilEmpty.string_of_uint d = EmptyString -> d = Decimal.Nil.
Proof. destruct d; simpl; intros H; congruence. Qed.

(** Printing a number and parsing it gives the number back. *)
Lemma ParseUint_formatUint (n bits : N) :
  (n < 2 ^ bits)%N -> ParseUint (formatUint n) bits = Some n.
Proof.
  intros Hn. unfold ParseUint, formatUint.
  destruct (NilEmpty.string_of_uint (N.to_uint n)) eqn:E.
  - apply string_of_uint_empty in E. destruct n as [|p]; [discriminate|].
    simpl in E. apply Unsigned.to_uint_nonnil in E. contradiction.
  - rewrite <- E, parseDigits_zero.
    change (Pos.of_uint (N.to_uint n)) with (N.of_uint (N.to_uint n)).
    rewrite DecimalN.Unsigned.of_to.
    apply N.ltb_lt in Hn. rewrite Hn. reflexivity.
Qed.

Lemma digits_noDelim (d : Decimal.uint) (c : ascii) :
  c = ":"%char \/ c = "/"%char ->
  hasByte c (NilEmpty.string_of_uint d) = false.
Proof.
  intros [-> | ->]; induction d; simpl; auto.
Qed.

Lemma formatUint_noDelim (n : N) : noDelim (formatUint n).
Proof.
  split; apply digits_noDelim; [left | right]; reflexivity.
Qed.

Lemma ParseUint_bound (x : string) (bits n : N) :
  ParseUint x bits = Some n -> (n < 2 ^ bits)%N.
Proof.
  unfold ParseUint. destruct x; [discriminate|].
  destruct (parseDigits _ 0%N) as [v|]; [|discriminate].
  destruct (v <? 2 ^ bits)%N eqn:E; [|discriminate].
  intros [= <-]. apply N.ltb_lt. exact E.
Qed.

Section Load.
Context `{D : Deps}.

Lemma splitPort_bound (specification : string) :
  (snd (splitPort specification) < 2 ^ 32)%N.
Proof.
  unfold splitPort.
  destruct (Contains specification portDelimiter); [|simpl; lia].
  cbv zeta. destruct (1 <? length (Split specification ":"))%nat; [|simpl; lia].
  simpl. destruct (ParseUint _ 32) as [n|] eqn:E; [|lia].
  exact (ParseUint_bound _ _ _ E).
Qed.

Lemma Load_port_range (source : dnsSource) (specification : string) :
  (0 < port (Load source specification) < 2 ^ 32)%N.
Proof.
  pose proof (Load_always source specification) as (_ & _ & Hp & _).
  cbv zeta in Hp. revert Hp. unfold Load.
  destruct (splitProtocol specification) as [spec1 proto1].
  pose proof (splitPort_bound spec1) as Hb.
  destruct (splitPort spec1) as [d1 p1]. cbv zeta. cbn [port].
  intros Hp. simpl in Hb. split; [lia|].
  destruct (N.eqb p1 0); [|exact Hb].
  destruct (String.eqb "tcp-tls" _); unfold defaultTLSPort, defaultPort; lia.
Qed.

(** Whatever the specification, [Load] leaves a usable source: a valid
    protocol, a port between 1 and 2^32-1, an empty request buffer, no
    worker.  It does not touch the backoff or the closing flag.  The
    remote address is the server and the port when the server parses as
    an IP address, and the address the source had before when it does
    not: a host name is never dialled. *)
Theorem Load_any_specification (source : dnsSource) (specification : string) :
  let s := Load source specification in
  In (protocol s) validProtocols /\
  (0 < port s < 2 ^ 32)%N /\
  workers s = 0%Z /\ questionChan s = Some [] /\ closeChan s = Some 0%nat /\
  backoffTime s = backoffTime source /\ closing s = closing source /\
  remoteAddress s =
    (if ParseIP (dnsServer s)
     then dnsServer s ++ ":" ++ formatUint (port s)
     else remoteAddress source).
Proof.
  pose proof (Load_always source specification) as (Hv & _).
  pose proof (Load_port_range source specification) as Hp.
  cbv zeta in *. split; [exact Hv|]. split; [exact Hp|]. clear Hv Hp.
  unfold Load.
  destruct (splitProtocol specification) as [spec1 proto1].
  destruct (splitPort spec1) as [d1 p1]. cbv zeta.
  cbn [port workers questionChan closeChan backoffTime closing remoteAddress dnsServer].
  repeat split.
Qed.

(** [Load] sees the specification through its first block only. *)
Lemma Load_splitProtocol (source : dnsSource) (a b : string) :
  splitProtocol a = splitProtocol b -> Load source a = Load source b.
Proof. intros H. unfold Load. rewrite H. reflexivity. Qed.

(** What follows a second "/" is dropped without notice:
    host[:port]/proto/anything loads as host[:port]/proto does. *)
Theorem Load_ignores_trailing (source : dnsSource) (host : string)
    (p : option string) (proto junk : string) :
  noDelim host ->
  (forall x, p = Some x -> noDelim x) ->
  StringIn (ToLower proto) validProtocols = true ->
  Load source (mkSpec host p (Some proto) ++ String "/" junk) =
  Load source (mkSpec host p (Some proto)).
Proof.
  intros Hh Hp Hv. apply Load_splitProtocol. unfold mkSpec.
  set (pp := match p with Some x => ":" ++ x | None => "" end).
  assert (Hhp : hasByte "/" (host ++ pp) = false).
  { rewrite hasByte_app. destruct Hh as [_ ->]. subst pp.
    destruct p as [x|]; [apply (Hp x eq_refl) | reflexivity]. }
  rewrite (append_assoc host pp).
  rewrite (splitProtocol_spec (host ++ pp) (Some proto) Hhp)
    by (intros x [= <-]; exact Hv).
  rewrite <- append_assoc.
  change (("/" ++ proto) ++ String "/" junk) with (String "/"%char (proto ++ String "/" junk)).
  unfold splitProtocol, protoDelimiter. rewrite Contains_byte, hasByte_app.
  simpl hasByte at 2. rewrite orb_true_r.
  rewrite (Split_app "/" (host ++ pp) _ Hhp).
  rewrite (Split_app "/" proto junk (proj2 (valid_noDelim proto Hv))).
  cbv zeta.
  change (nth 1 (?a :: ?b :: ?l) "") with b.
  change (nth 0 (?a :: ?l) "") with a.
  destruct (Split junk "/"); simpl length; simpl Nat.ltb; rewrite Hv; reflexivity.
Qed.

(** A protocol that is none of udp, tcp and tcp-tls is not taken off
    the specification: it stays in the server name, a port in it is not
    looked for, and the source is a udp source on port 53. *)
Theorem Load_unknown_protocol (source : dnsSource) (host proto : string) :
  noDelim host -> noDelim proto ->
  StringIn (ToLower proto) validProtocols = false ->
  let s := Load source (host ++ String "/" proto) in
  dnsServer s = host ++ String "/" proto /\
  protocol s = "udp" /\ network s = "udp" /\ port s = 53%N.
Proof.
  intros [Hh1 Hh2] [Hp1 Hp2] Hv. cbv zeta. unfold Load.
  assert (H1 : splitProtocol (host ++ String "/" proto) = (host ++ String "/" proto, "")).
  { unfold splitProtocol, protoDelimiter. rewrite Contains_byte, hasByte_app.
    simpl hasByte at 2. rewrite orb_true_r.
    rewrite (Split_app "/" host proto Hh2), (Split_none "/" proto Hp2).
    cbv zeta. change (nth 1 [host; proto] "") with proto.
    rewrite Hv, andb_false_r. reflexivity. }
  assert (H2 : splitPort (host ++ String "/" proto) = (host ++ String "/" proto, 0%N)).
  { unfold splitPort, portDelimiter. rewrite Contains_byte, hasByte_app, Hh1.
    simpl. rewrite Hp1. reflexivity. }
  rewrite H1, H2. repeat split.
Qed.

(** The name of a source loaded from host[:port][/proto], host an IP
    address, is a specification of that source: loading it again
    changes nothing. *)
Theorem Load_Name_round_trip (source : dnsSource) (host : string)
    (p proto : option string) :
  noDelim host ->
  (forall x, p = Some x -> noDelim x) ->
  (forall x, proto = Some x -> StringIn (ToLower x) validProtocols = true) ->
  ParseIP host = true ->
  let s := Load source (mkSpec host p proto) in
  Name s = mkSpec host (Some (formatUint (port s))) (Some (protocol s)) /\
  Load s (Name s) = s.
Proof.
  intros Hh Hp Hproto Hip s.
  pose proof (Load_always source (mkSpec host p proto)) as (Hv & _).
  pose proof (Load_port_range source (mkSpec host p proto)) as Hport.
  cbv zeta in Hv. fold s in Hv, Hport.
  assert (Hs := Load_mkSpec source host p proto Hh Hp Hproto). fold s in Hs.
  cbv zeta in Hs. rewrite Hip in Hs. clearbody s.
  assert (Hname : Name s = mkSpec host (Some (formatUint (port s))) (Some (protocol s))).
  { unfold Name, mkSpec. rewrite Hs. cbn [remoteAddress protocol port].
    unfold portDelimiter. rewrite <- append_assoc. reflexivity. }
  split; [exact Hname|].
  assert (Hlow : ToLower (protocol s) = protocol s).
  { simpl in Hv. destruct Hv as [<-|[<-|[<-|[]]]]; reflexivity. }
  rewrite Hname, Load_mkSpec; cycle 1.
  - exact Hh.
  - intros x [= <-]. apply formatUint_noDelim.
  - intros x [= <-]. rewrite Hlow. apply StringIn_In. exact Hv.
  - cbv zeta. rewrite Hip, Hlow.
    assert (Hpo : portOf (Some (formatUint (port s))) = Some (port s)).
    { unfold portOf. rewrite ParseUint_formatUint by lia.
      destruct (N.eqb_spec (port s) 0); [lia | reflexivity]. }
    rewrite Hpo, Hs. reflexivity.
Qed.

End Load.

(** The example of claim C9 with a path behind the protocol. *)
Lemma Load_ignores_trailing_witness :
  Load (D := exampleDeps) zeroSource "8.8.8.8:53/tcp/resolve" =
  Load (D := exampleDeps) zeroSource "8.8.8.8:53/tcp".
Proof.
  apply (Load_ignores_trailing (D := exampleDeps) zeroSource "8.8.8.8"
           (Some "53") "tcp" "resolve").
  - split; reflexivity.
  - intros x [= <-]. split; reflexivity.
  - reflexivity.
Defined.

(** 8.8.8.8/quic is the name of a server for udp. *)
Lemma Load_unknown_protocol_witness :
  let s := Load (D := exampleDeps) zeroSource "8.8.8.8/quic" in
  dnsServer s = "8.8.8.8/quic" /\ protocol s = "udp" /\ remoteAddress s = "".
Proof.
  pose proof (Load_unknown_protocol (D := exampleDeps) zeroSource "8.8.8.8" "quic") as H.
  cbv zeta in H. destruct H as (H1 & H2 & _).
  - split; reflexivity.
  - split; reflexivity.
  - reflexivity.
  - exact (conj H1 (conj H2 eq_refl)).
Defined.

(** 8.8.8.8/tcp-tls is called 8.8.8.8:853/tcp-tls, and that name loads
    to the same source. *)
Lemma Load_Name_round_trip_witness :
  let s := Load (D := exampleDeps) zeroSource "8.8.8.8/TCP-TLS" in
  Name s = "8.8.8.8:853/tcp-tls" /\ Load (D := exampleDeps) s (Name s) = s.
Proof.
  pose proof (Load_Name_round_trip (D := exampleDeps) zeroSource "8.8.8.8" None
                (Some "TCP-TLS")) as H.
  cbv zeta in H. destruct H as [H1 H2].
  - split; reflexivity.
  - intros x [=].
  - intros x [= <-]. reflexivity.
  - reflexivity.
  - exact (conj H1 H2).
Defined.

End LoadMoreFacts.

(* --------------------------------------------------------------------- *)
(** ** The DNS source: calls, pool and workers                            *)
(* --------------------------------------------------------------------- *)

Module PoolFacts.
Import Util UtilFacts Dns Resolver Pool SourceFacts.

Section Pool.
Context `{D : Deps}.

(** A call of [Answer] spawns one worker at most and submits one request
    at most, its own, with recursion desired, after the spawn; while the
    source is asleep, and for a request that is nil or does not desire
    recursion, it does neither and returns (nil, nil). *)
Theorem Answer_events (source : dnsSource) context request env :
  let a := Answer source context request env in
  (events a = [] \/ events a = [EvSpawnWorker] \/
   exists req, request = Some req /\ RecursionDesired req = true /\
               (events a = [EvSubmit req] \/ events a = [EvSpawnWorker; EvSubmit req])) /\
  (match request with
   | Some req => RecursionDesired req = false
   | None => True
   end ->
   events a = [] /\ returned a = Returns (None, None) /\
   workers (sourceAfter a) = workers source).
Proof.
  cbv zeta. unfold Answer.
  destruct (match backoffTime source with Some b => (now env <? b)%Z | None => false end).
  { split; [left; reflexivity | intros _; repeat split]. }
  destruct request as [req|]; [|split; [left; reflexivity | intros _; repeat split]].
  destruct (RecursionDesired req) eqn:Hrd; simpl negb; cbv iota;
    [|split; [left; reflexivity | intros _; repeat split]].
  split; [|discriminate].
  unfold increaseWorkers, query.
  destruct (_ || _)%bool; simpl;
    (destruct (questionChan source) as [q|]; simpl;
     [destruct (reply env) as [[[er|] resp]|]; simpl|]);
    eauto 10.
Qed.

(** On a closed source, a call that is not turned away returns the
    error of a closed source and starts a backoff; nothing is
    submitted. *)
Theorem Answer_closed (source : dnsSource) context (req : Msg) env :
  questionChan source = None ->
  match backoffTime source with Some b => (b <= now env)%Z | None => True end ->
  RecursionDesired req = true ->
  let a := Answer source context (Some req) env in
  returned a =
    Returns (None, Some ("Resolver source '" ++ Name source ++ "' closed")) /\
  backoffTime (sourceAfter a) = Some (errNow env + backoffInterval)%Z /\
  existsb isSubmit (events a) = false /\
  contextAfter a = context.
Proof.
  intros Hq Hb Hrd. cbv zeta. unfold Answer.
  assert (Hawake : match backoffTime source with
                   | Some b => (now env <? b)%Z | None => false end = false).
  { destruct (backoffTime source) as [b|]; [apply Z.ltb_ge; exact Hb | reflexivity]. }
  rewrite Hawake, Hrd. simpl negb. cbv iota.
  unfold increaseWorkers, query, Name.
  destruct (_ || _)%bool; simpl; rewrite Hq; simpl; repeat split.
Qed.

(** The answering source is recorded once: a context that names a
    source is never changed, and a context that is changed names this
    source, whose response is not empty. *)
Theorem Answer_SourceUsed (source : dnsSource) (ctx : ResolutionContext)
    request env :
  let a := Answer source (Some ctx) request env in
  (SourceUsed ctx <> "" -> contextAfter a = Some ctx) /\
  (contextAfter a <> Some ctx ->
   contextAfter a = Some {| SourceUsed := Name (sourceAfter a) |} /\
   exists resp, returned a = Returns (resp, None) /\ IsEmptyResponse resp = false).
Proof.
  cbv zeta. unfold Answer.
  destruct (match backoffTime source with Some b => (now env <? b)%Z | None => false end);
    [split; [reflexivity | intros H; contradiction]|].
  destruct request as [req|]; [|split; [reflexivity | intros H; contradiction]].
  destruct (negb (RecursionDesired req));
    [split; [reflexivity | intros H; contradiction]|].
  destruct (increaseWorkers (setPool source None (workers source))) as [s2 evs1].
  destruct (query s2 req (reply env)) as [[[resp [e|]]|] evs2]; simpl;
    try (split; [reflexivity | intros H; contradiction]).
  destruct (IsEmptyResponse resp) eqn:He; simpl;
    [split; [reflexivity | intros H; contradiction]|].
  destruct (String.eqb (SourceUsed ctx) "") eqn:Hs;
    [|split; [reflexivity | intros H; contradiction]].
  apply String.eqb_eq in Hs. split; [intros H; contradiction|].
  intros _. split; [reflexivity|]. exists resp. split; [reflexivity | exact He].
Qed.

Lemma decreaseWorkers_bounds (s s' : dnsSource) :
  decreaseWorkers s = Some s' ->
  (0 <= workers s <= maxWorkers + 1)%Z -> (tokens s <= 50)%nat ->
  (0 <= workers s' <= maxWorkers + 1)%Z /\ (tokens s' <= 50)%nat /\
  (workers s' = workers s \/
   (workers s' = workers s - 1)%Z /\ tokens s' = S (tokens s)).
Proof.
  unfold decreaseWorkers, tokens. intros H Hw Ht.
  destruct (minWorkers <? workers s)%Z eqn:E1; simpl in H;
    [|injection H as <-; auto].
  destruct (lenQuestionChan s <? requestBuffer / 2)%Z; simpl in H;
    [|injection H as <-; auto].
  destruct (closeChan s) as [k|]; [|discriminate].
  destruct (Z.of_nat k <? maxWorkers * 2)%Z eqn:E2; [|discriminate].
  injection H as <-. simpl.
  apply Z.ltb_lt in E1, E2. unfold minWorkers, maxWorkers in *.
  rewrite wrapInt_small by lia. repeat split; lia.
Qed.

(** The bounds of the pool, the pressure controller included: from a
    loaded source on, the worker count stays between 0 and
    [maxWorkers + 1] and the close channel never holds more than its
    [maxWorkers * 2] tokens, whatever calls of [Answer] and of
    [decreaseWorkers] are made and however the workers drain the
    channels. *)
Theorem pool_bounds (source : dnsSource) (specification : string) (s : dnsSource) :
  poolReachable (Load source specification) s ->
  (0 <= workers s <= maxWorkers + 1)%Z /\ (tokens s <= 50)%nat.
Proof.
  induction 1 as [|s s' _ IH Hstep].
  - unfold Load, tokens. destruct (splitProtocol _), (splitPort _). simpl.
    unfold maxWorkers. lia.
  - destruct IH as [Hw Ht]. destruct Hstep as [s s' Hs | s s' Hd | s k Hk].
    + split; [exact (step_bounds s s' Hs Hw)|].
      assert (Hc : closeChan s' = closeChan s).
      { destruct Hs as [source0 context request env | source0 q q' Hq Hlen];
          [|reflexivity].
        unfold Answer.
        destruct (match backoffTime source0 with
                  | Some b => (now env <? b)%Z | None => false end); [reflexivity|].
        destruct request as [req|]; [|reflexivity].
        destruct (negb (RecursionDesired req)); [reflexivity|].
        unfold increaseWorkers, query.
        destruct (_ || _)%bool; simpl;
          (destruct (questionChan source0);
           [destruct (reply env) as [[[er|] resp]|]; reflexivity | reflexivity]). }
      unfold tokens in *. rewrite Hc. exact Ht.
    + destruct (decreaseWorkers_bounds s s' Hd Hw Ht) as (H1 & H2 & _). auto.
    + split; [exact Hw|]. unfold tokens in *. rewrite Hk in Ht. simpl. lia.
Qed.

End Pool.

(** The test before the second dial holds for [io.EOF] and for a
    [*net.OpError] whose [Err] is the bare errno EPIPE, and for no other
    error. *)
Lemma retriable_spec (e : netError) :
  retriable e = true <->
  e = EndOfFile \/ exists text, e = OpError (Errno EPIPE) text.
Proof.
  split.
  - destruct e as [[code|call code|t] text| |text]; simpl; try discriminate.
    + intros H. apply N.eqb_eq in H. subst code. right. exists text. reflexivity.
    + intros _. left. reflexivity.
  - intros [-> | [text ->]]; reflexivity.
Qed.

Lemma tcpWork_cases (closing : bool) (co : option Conn) (work : option Msg)
    (env : WorkEnv) :
  (tcpWork closing co work env = Panic <->
   work = None \/ (closing = true /\ co = None)) /\
  (forall w, tcpWork closing co work env = Ret w ->
     length (replies w) = 1%nat /\
     returns w = closing /\
     (handled w <= 2)%nat /\ (opened w <= 2)%nat /\
     (handled w = 2%nat <->
      closing = false /\
      (co <> None \/ exists c, firstConnect env = Done c) /\
      (exists e, snd (handle (firstHandle env)) = Some e /\ retriable e = true) /\
      (exists c', reconnect env = Done c')) /\
     (forall r, In r (replies w) -> err r <> None -> response r = None)).
Proof.
  unfold tcpWork, handle, mkReply. split.
  - destruct closing, co as [c|], work as [m|]; simpl;
      repeat match goal with
             | |- context [firstConnect env] => destruct (firstConnect env) eqn:?; simpl
             | |- context [written ?h] => destruct (written h) eqn:?; simpl
             | |- context [readMsg ?h] => destruct (readMsg h) eqn:?; simpl
             | |- context [retriable ?e] => destruct (retriable e) eqn:?; simpl
             | |- context [reconnect env] => destruct (reconnect env) eqn:?; simpl
             end;
      split; try discriminate; try tauto;
      try (intros [H | [H1 H2]]; discriminate).
  - intros w.
    destruct closing, co as [c|], work as [m|]; simpl; try discriminate;
      repeat match goal with
             | |- context [firstConnect env] => destruct (firstConnect env) eqn:?; simpl
             | |- context [written ?h] => destruct (written h) eqn:?; simpl
             | |- context [readMsg ?h] => destruct (readMsg h) eqn:?; simpl
             | |- context [retriable ?e] => destruct (retriable e) eqn:?; simpl
             | |- context [reconnect env] => destruct (reconnect env) eqn:?; simpl
             end;
      intros [= <-]; simpl;
      (split; [reflexivity|]); (split; [reflexivity|]);
      (split; [lia|]); (split; [lia|]);
      (split;
       [split;
        [intros H; try discriminate H;
         repeat split; try reflexivity; eauto; try (left; discriminate)
        |intros (Hc & Hco & (xe & He1 & Hr1) & (xc & Hc2));
         try discriminate; try congruence;
         try (destruct Hco as [Hco | [xd Hc3]]; congruence)]
       |intros r0 [<- | []]; simpl; congruence]).
Qed.

(** The tcp worker answers every work item once, or panics: it panics
    on the nil item of a closed request channel, and when the source is
    closing while the worker holds no connection.  It runs [handle]
    twice at most, and a second time exactly when the first exchange
    failed with [io.EOF] or with a [*net.OpError] whose [Err] is the
    bare errno EPIPE, and the new dial went through.  An errno wrapped
    in a [*os.SyscallError], which is how package [net] reports a broken
    pipe, does not pass the test: there is no second exchange.  A reply
    with an error carries no response. *)
Theorem tcpWork_replies_once (closing : bool) (co : option Conn) (work : option Msg)
    (env : WorkEnv) :
  (tcpWork closing co work env = Panic <->
   work = None \/ (closing = true /\ co = None)) /\
  (forall w, tcpWork closing co work env = Ret w ->
     length (replies w) = 1%nat /\
     returns w = closing /\
     (handled w <= 2)%nat /\ (opened w <= 2)%nat /\
     (handled w = 2%nat <->
      closing = false /\
      (co <> None \/ exists c, firstConnect env = Done c) /\
      (snd (handle (firstHandle env)) = Some EndOfFile \/
       exists text, snd (handle (firstHandle env)) =
                    Some (OpError (Errno EPIPE) text)) /\
      (exists c', reconnect env = Done c')) /\
     (forall call code text,
         snd (handle (firstHandle env)) =
         Some (OpError (SyscallError call code) text) ->
         (handled w <= 1)%nat) /\
     (forall r, In r (replies w) -> err r <> None -> response r = None)).
Proof.
  destruct (tcpWork_cases closing co work env) as [Hpanic Hret].
  split; [exact Hpanic|].
  intros w Hw. destruct (Hret w Hw) as (H1 & H2 & H3 & H4 & H5 & H6).
  split; [exact H1|]. split; [exact H2|]. split; [exact H3|]. split; [exact H4|].
  assert (H5' : handled w = 2%nat <->
      closing = false /\
      (co <> None \/ exists c, firstConnect env = Done c) /\
      (snd (handle (firstHandle env)) = Some EndOfFile \/
       exists text, snd (handle (firstHandle env)) =
                    Some (OpError (Errno EPIPE) text)) /\
      (exists c', reconnect env = Done c')).
  { rewrite H5. split.
    - intros (Hc & Hco & (e & He & Hr) & Hre).
      split; [exact Hc|]. split; [exact Hco|]. split; [|exact Hre].
      apply retriable_spec in Hr as [-> | [text ->]]; eauto.
    - intros (Hc & Hco & He & Hre).
      split; [exact Hc|]. split; [exact Hco|]. split; [|exact Hre].
      destruct He as [He | [text He]]; eexists; (split; [exact He | reflexivity]). }
  split; [exact H5'|]. split; [|exact H6].
  intros call code text He.
  destruct (Nat.eq_dec (handled w) 2) as [E|E]; [|lia].
  apply H5' in E as (_ & _ & [E | [t E]] & _); rewrite He in E; discriminate.
Qed.

(** The udp worker answers every work item once and panics only on a
    nil item while the source is not closing; it opens one connection
    per item at most and closes none. *)
Theorem udpWork_replies_once (closing : bool) (work : option Msg) (env : WorkEnv) :
  (udpWork closing work env = Panic <-> closing = false /\ work = None) /\
  (forall w, udpWork closing work env = Ret w ->
     length (replies w) = match work with Some _ => 1%nat | None => 0%nat end /\
     returns w = closing /\
     (opened w <= 1)%nat /\ closed w = 0%nat /\ (handled w <= 1)%nat /\
     (forall r, In r (replies w) -> err r <> None -> response r = None)).
Proof.
  unfold udpWork, handle, mkReply. split.
  - destruct closing, work as [m|]; simpl;
      repeat match goal with
             | |- context [firstConnect env] => destruct (firstConnect env) eqn:?; simpl
             | |- context [written ?h] => destruct (written h) eqn:?; simpl
             | |- context [readMsg ?h] => destruct (readMsg h) eqn:?; simpl
             end;
      split; try discriminate; try tauto;
      try (intros [H1 H2]; discriminate).
  - intros w.
    destruct closing, work as [m|]; simpl;
      repeat match goal with
             | |- context [firstConnect env] => destruct (firstConnect env) eqn:?; simpl
             | |- context [written ?h] => destruct (written h) eqn:?; simpl
             | |- context [readMsg ?h] => destruct (readMsg h) eqn:?; simpl
             end;
      try discriminate; intros [= <-]; simpl;
      (split; [reflexivity|]); (split; [reflexivity|]);
      (split; [lia|]); (split; [reflexivity|]); (split; [lia|]);
      intros r0 Hr0; simpl in Hr0;
      try contradiction; destruct Hr0 as [<- | []]; simpl; congruence.
Qed.

(** A source closed after loading turns a query away with the error of
    a closed source. *)
Lemma Answer_closed_witness :
  let source := setQuestionChan (Load (D := exampleDeps) zeroSource "8.8.8.8") None in
  let req := {| Id := 7; Response := false; Opcode := 0; RecursionDesired := true;
                CheckingDisabled := false; Rcode := 0; Questions := [];
                Dns.Answer := [] |} in
  let env := {| now := 0%Z; reply := None; errNow := 5%Z |} in
  returned (Answer (D := exampleDeps) source None (Some req) env) =
    Returns (None, Some "Resolver source '8.8.8.8:53/udp' closed") /\
  events (Answer (D := exampleDeps) source None (Some req) env) = [EvSpawnWorker].
Proof.
  intros source req env.
  pose proof (Answer_closed (D := exampleDeps) source None req env eq_refl I eq_refl) as H.
  cbv zeta in H. destruct H as (H1 & _).
  split; [exact H1 | reflexivity].
Defined.

(** The bounds after a query and a call of [decreaseWorkers]. *)
Lemma pool_bounds_witness :
  let source := Load (D := exampleDeps) zeroSource "8.8.8.8" in
  let req := {| Id := 7; Response := false; Opcode := 0; RecursionDesired := true;
                CheckingDisabled := false; Rcode := 0; Questions := [];
                Dns.Answer := [] |} in
  let env := {| now := 0%Z; reply := Some {| err := None; response := None |};
                errNow := 0%Z |} in
  let s1 := sourceAfter (Answer (D := exampleDeps) source None (Some req) env) in
  workers s1 = 1%Z /\
  forall s2, decreaseWorkers s1 = Some s2 ->
             (0 <= workers s2 <= maxWorkers + 1)%Z /\ (tokens s2 <= 50)%nat.
Proof.
  intros source req env s1. split; [reflexivity|].
  intros s2 Hd.
  apply (pool_bounds (D := exampleDeps) zeroSource "8.8.8.8" s2).
  eapply pool_next; [eapply pool_next; [apply pool_refl|] |].
  - apply pool_step. apply (step_answer source None (Some req) env).
  - apply pool_decrease. exact Hd.
Defined.

End PoolFacts.

(* --------------------------------------------------------------------- *)
(** ** Content types and the keep file                                    *)
(* --------------------------------------------------------------------- *)

Module WebFacts.
Import Util UtilFacts Web.

Lemma LastIndex_range (s : string) (c : ascii) :
  (-1 <= LastIndex s c < Z.of_nat (String.length s))%Z /\
  (hasByte c s = true -> 0 <= LastIndex s c)%Z.
Proof.
  induction s as [|a s [IH1 IH2]]; simpl String.length; simpl hasByte.
  - simpl. split; [lia | discriminate].
  - cbn [LastIndex]. cbv zeta.
    destruct (0 <=? LastIndex s c)%Z eqn:E.
    + apply Z.leb_le in E. split; lia.
    + apply Z.leb_gt in E. destruct (Ascii.eqb a c); simpl.
      * split; lia.
      * split; [lia|]. intros H. specialize (IH2 H). lia.
Qed.

(** The content type of a path sticks: [getContentType] always returns,
    what it returns for a path is what every later call returns for that
    path whatever default is passed, and the entries of other paths are
    left alone.  A path that is new to the cache and has no dot gets the
    default. *)
Theorem getContentType_sticks (TypeByExtension : string -> string)
    (cache : gmap string string) (filepath defaultType : string) :
  exists value cache',
    getContentType TypeByExtension cache filepath defaultType = Ret (value, cache') /\
    cache' !! filepath = Some value /\
    (forall otherDefault,
        getContentType TypeByExtension cache' filepath otherDefault =
        Ret (value, cache')) /\
    (forall other, other <> filepath -> cache' !! other = cache !! other) /\
    (cache !! filepath = None -> Contains filepath "." = false ->
     value = defaultType) /\
    (cache !! filepath = None -> defaultType <> "" -> value <> "").
Proof.
  unfold getContentType.
  destruct (cache !! filepath) as [v|] eqn:Hc.
  - exists v, cache. rewrite Hc.
    repeat split; auto; intros; discriminate.
  - assert (Hslice : Contains filepath "." = true ->
              exists ext, sliceFrom filepath (LastIndex filepath ".") = Ret ext).
    { rewrite Contains_byte. intros Hdot.
      destruct (LastIndex_range filepath ".") as [[_ Hlt] Hge].
      specialize (Hge Hdot). unfold sliceFrom.
      assert (H1 : (0 <=? LastIndex filepath ".")%Z = true) by (apply Z.leb_le; lia).
      assert (H2 : (LastIndex filepath "." <=? Z.of_nat (String.length filepath))%Z = true)
        by (apply Z.leb_le; lia).
      rewrite H1, H2. eauto. }
    destruct (Contains filepath ".") eqn:Hdot.
    + destruct (Hslice eq_refl) as [ext ->].
      eexists _, _. split; [reflexivity|].
      rewrite lookup_insert_eq. repeat split; auto.
      * intros other Hne. apply lookup_insert_ne. congruence.
      * discriminate.
      * intros _ Hd. destruct (String.eqb_spec (TypeByExtension ext) ""); congruence.
    + eexists _, _. split; [reflexivity|].
      rewrite lookup_insert_eq. simpl. repeat split; auto.
      intros other Hne. apply lookup_insert_ne. congruence.
Qed.

End WebFacts.

Module KeepfileFacts.
Import Util UtilFacts Keepfile.

Lemma searchLoop_nonneg (fuel : nat) (f : Z -> bool) (i j : Z) :
  (0 <= i)%Z -> (0 <= searchLoop fuel f i j)%Z.
Proof.
  revert i j. induction fuel as [|fuel IH]; intros i j Hi; simpl; [exact Hi|].
  destruct (i <? j)%Z; [|exact Hi].
  destruct (negb (f _)); apply IH; [|exact Hi].
  assert (0 <= (i + j) mod 2 ^ 64 / 2)%Z; [|lia].
  apply Z.div_pos; [|lia]. apply Z.mod_pos_bound. lia.
Qed.

(** The loop of [Search] within the bounds of a slice: the result lies
    in the interval, and it is reached within the fuel, which more fuel
    does not change. *)
Lemma searchLoop_adequate (fuel : nat) (f : Z -> bool) (i j : Z) :
  (0 <= i <= j)%Z -> (j < 2 ^ 63)%Z -> (j - i <= Z.of_nat fuel)%Z ->
  (i <= searchLoop fuel f i j <= j)%Z /\
  forall more, searchLoop (fuel + more) f i j = searchLoop fuel f i j.
Proof.
  revert i j. induction fuel as [|fuel IH]; intros i j Hij Hj Hfuel.
  - assert (i = j) by lia. subst j. split; [simpl; lia|].
    intros [|more]; simpl; [reflexivity|]. rewrite Z.ltb_irrefl. reflexivity.
  - cbn [searchLoop Nat.add]. destruct (i <? j)%Z eqn:E.
    + apply Z.ltb_lt in E. cbv zeta.
      rewrite (Z.mod_small (i + j) (2 ^ 64)) by lia.
      assert (Hh : (i <= (i + j) / 2 < j)%Z).
      { split; [apply Z.div_le_lower_bound | apply Z.div_lt_upper_bound]; lia. }
      destruct (negb (f ((i + j) / 2)%Z)).
      * destruct (IH ((i + j) / 2 + 1)%Z j) as [H1 H2]; try lia. split; [lia | exact H2].
      * destruct (IH i ((i + j) / 2)%Z) as [H1 H2]; try lia. split; [lia | exact H2].
    + split; [lia | reflexivity].
Qed.

Section Keepfile.
Variable rootdomain : string -> string.
Variable sortStrings : list string -> list string.

(** [Test] reports a match for every name, whatever the file holds: the
    index [SearchStrings] returns is an insertion point, which is never
    negative, and that is all [Test] asks of it.  Within the bounds of a
    slice that index lies between 0 and the length of the file. *)
Theorem Test_always_true (file : list string) (forMatch : string) :
  Test rootdomain file forMatch = true /\
  ((Z.of_nat (length file) < 2 ^ 63)%Z ->
   (0 <= SearchStrings file forMatch <= Z.of_nat (length file))%Z).
Proof.
  split.
  - unfold Test, SearchStrings, Search. cbv zeta.
    apply orb_true_iff. left. apply Z.leb_le, searchLoop_nonneg. lia.
  - intros Hlen. unfold SearchStrings, Search.
    apply searchLoop_adequate; lia.
Qed.

(** [Load] cuts the content at carriage returns only: a file without
    one, such as a file with unix line ends, is loaded as one single
    entry, trimmed at both ends. *)
Theorem Load_without_carriage_return (content : string) :
  (forall l, Permutation (sortStrings l) l) ->
  hasByte "013" content = false ->
  Load sortStrings content = [TrimSpace content].
Proof.
  intros Hsort Hcr. unfold Load.
  rewrite (Split_none "013" content Hcr). simpl.
  apply Permutation_singleton_r, Hsort.
Qed.

End Keepfile.

Lemma insertSorted_Permutation (x : string) (l : list string) :
  Permutation (insertSorted x l) (x :: l).
Proof.
  induction l as [|y l IH]; simpl; [reflexivity|].
  destruct (String.leb x y); [reflexivity|].
  rewrite IH. apply perm_swap.
Qed.

Lemma insertionSort_Permutation (l : list string) :
  Permutation (insertionSort l) l.
Proof.
  induction l as [|x l IH]; simpl; [reflexivity|].
  rewrite insertSorted_Permutation. constructor. exact IH.
Qed.

(** Two names on two unix lines are one entry. *)
Lemma Load_without_carriage_return_witness :
  Load insertionSort (String "010" ("b.example" ++ String "010" "a.example")) =
  ["b.example" ++ String "010" "a.example"].
Proof.
  exact (Load_without_carriage_return insertionSort
           (String "010" ("b.example" ++ String "010" "a.example"))
           insertionSort_Permutation eq_refl).
Defined.

End KeepfileFacts.
